(** * md2zd: Markdown code-fence highlighting pipeline

    A shallow embedding of [md2zd.py].  The program is one regular-expression
    substitution ([CODE_RE.sub(md_codeblock, md)]) followed by two calls into
    external libraries.

    Part I holds the definitions:

    - [PyRe]: the backtracking semantics of the part of Python's [re] that
      [CODE_RE] is written in (anchors, literals, ranges, dot, greedy
      optional, greedy and lazy plus over one-character items, groups), with
      [Pattern.search] and [Pattern.sub];
    - [Md2zd]: the functions of [md2zd.py], over the external collaborators
      (pygments, cmarkgfm, tidy, pathlib) given as interfaces;
    - [Fence], [Lines], [Doc], [Blocks]: the vocabulary of the statements,
      fences and documents seen as lines;
    - [Toy], [Samples]: a small lexer registry and documents to run the
      program on.

    Part II holds the proofs: one match of [CODE_RE] read off the text, then
    off the lines; the substitution line by line; the properties of
    [md_highlight] and of the pipeline. *)

From Stdlib Require Import String Ascii ZArith Lia Bool Arith List.
Import ListNotations.

Set Implicit Arguments.

(** * Part I: definitions *)

(** ** Text *)

(** A Python [str] is modelled as the list of its characters. *)
Definition text := list ascii.

Definition LF : ascii := "010"%char.
Definition CR : ascii := "013"%char.
Definition BT : ascii := "`"%char.
Definition DQ : ascii := "034"%char.

(** String literals of the source, as [text]. *)
Definition T (s : string) : text := list_ascii_of_string s.

(** ** Exceptions *)

(** Python exceptions the program can meet: [ValueError] (which the lexer
    lookup's [ClassNotFound] derives from), and the others kept apart
    because [md_codeblock] only catches [ValueError]. *)
Inductive exc := ValueError | TypeError | AttributeError | OSError.

Inductive result (A : Type) :=
| Ok (a : A)
| Raise (e : exc).
Arguments Ok {A} a.
Arguments Raise {A} e.

Definition bind {A B} (r : result A) (f : A -> result B) : result B :=
  match r with
  | Ok a => f a
  | Raise e => Raise e
  end.

Definition fmap {A B} (f : A -> B) (r : result A) : result B :=
  bind r (fun a => Ok (f a)).

Notation "x <- c ;; k" := (bind c (fun x => k))
  (at level 61, c at next level, right associativity).

(** ** The regular-expression engine *)

Module PyRe.

(** [re.M] and [re.S]. *)
Record flags := { MULTILINE : bool; DOTALL : bool }.

(** One-character items. *)
Inductive atom :=
| Lit (c : ascii)            (* a literal character *)
| Range (lo hi : ascii)      (* [lo-hi] *)
| Dot.                       (* . *)

Inductive regex :=
| Bol                        (* ^ *)
| Eol                        (* $ *)
| One (a : atom)
| Cat (r1 r2 : regex)
| Opt (r : regex)            (* r?  greedy *)
| Plus (a : atom)            (* a+  greedy *)
| PlusLazy (a : atom)        (* a+? lazy *)
| Group (n : nat) (r : regex). (* the n-th capturing group *)

Definition atom_ok (fl : flags) (a : atom) (c : ascii) : bool :=
  match a with
  | Lit x => Ascii.eqb c x
  | Range lo hi =>
      (nat_of_ascii lo <=? nat_of_ascii c) && (nat_of_ascii c <=? nat_of_ascii hi)
  | Dot => DOTALL fl || negb (Ascii.eqb c LF)
  end.

(** The matcher walks a zipper: [before] holds the characters to the left
    of the cursor, nearest first; [after] the characters to its right. *)
Record mstate := MkSt {
  before : text;
  after : text;
  caps : list (nat * text)
}.

(** [^]: start of the string, and with [re.M] just after a newline. *)
Definition at_bol (fl : flags) (b : text) : bool :=
  match b with
  | [] => true
  | c :: _ => MULTILINE fl && Ascii.eqb c LF
  end.

(** [$]: end of the string or just before the newline that ends it, and
    with [re.M] just before any newline. *)
Definition at_eol (fl : flags) (a : text) : bool :=
  match a with
  | [] => true
  | c :: rest =>
      Ascii.eqb c LF && (MULTILINE fl || match rest with [] => true | _ => false end)
  end.

Definition cont := mstate -> option mstate.

(** Greedy [a+]: take as many as possible, give back one at a time. *)
Fixpoint plus_greedy (p : ascii -> bool) (k : cont) (b a : text)
         (c : list (nat * text)) : option mstate :=
  match a with
  | [] => None
  | x :: a' =>
      if p x then
        match plus_greedy p k (x :: b) a' c with
        | Some r => Some r
        | None => k (MkSt (x :: b) a' c)
        end
      else None
  end.

(** Lazy [a+?]: take one, try the rest of the pattern, take one more. *)
Fixpoint plus_lazy (p : ascii -> bool) (k : cont) (b a : text)
         (c : list (nat * text)) : option mstate :=
  match a with
  | [] => None
  | x :: a' =>
      if p x then
        match k (MkSt (x :: b) a' c) with
        | Some r => Some r
        | None => plus_lazy p k (x :: b) a' c
        end
      else None
  end.

(** The text consumed between two states of one run. *)
Definition consumed (s s' : mstate) : text :=
  rev (firstn (length (before s') - length (before s)) (before s')).

(** Backtracking matcher in continuation-passing style: [run fl r k s]
    matches [r] at [s] and hands each way of doing so, in priority order,
    to [k], until [k] succeeds. *)
Fixpoint run (fl : flags) (r : regex) (k : cont) (s : mstate) : option mstate :=
  match r with
  | Bol => if at_bol fl (before s) then k s else None
  | Eol => if at_eol fl (after s) then k s else None
  | One a =>
      match after s with
      | x :: a' =>
          if atom_ok fl a x then k (MkSt (x :: before s) a' (caps s)) else None
      | [] => None
      end
  | Cat r1 r2 => run fl r1 (run fl r2 k) s
  | Opt r1 =>
      match run fl r1 k s with
      | Some x => Some x
      | None => k s
      end
  | Plus a => plus_greedy (atom_ok fl a) k (before s) (after s) (caps s)
  | PlusLazy a => plus_lazy (atom_ok fl a) k (before s) (after s) (caps s)
  | Group n r1 =>
      run fl r1
          (fun s' => k (MkSt (before s') (after s') ((n, consumed s s') :: caps s')))
          s
  end.

Fixpoint ngroups (r : regex) : nat :=
  match r with
  | Cat r1 r2 => Nat.max (ngroups r1) (ngroups r2)
  | Opt r1 => ngroups r1
  | Group n r1 => Nat.max n (ngroups r1)
  | _ => 0
  end.

Fixpoint lookup (n : nat) (c : list (nat * text)) : option text :=
  match c with
  | [] => None
  | (m, t) :: c' => if Nat.eqb n m then Some t else lookup n c'
  end.

(** A match object: the length of the matched span, and [groups()], with
    [None] for a group that did not take part. *)
Record Match := MkMatch {
  span_len : nat;
  groups : list (option text)
}.

(** One match attempt with the cursor between [b] and [a]. *)
Definition match_at (fl : flags) (r : regex) (b a : text) : option Match :=
  match run fl r Some (MkSt b a []) with
  | Some s' =>
      Some (MkMatch (length (before s') - length b)
                    (map (fun n => lookup n (caps s')) (seq 1 (ngroups r))))
  | None => None
  end.

(** [Pattern.search]: the leftmost position with a match; the result is
    the number of characters before it, and the match. *)
Fixpoint search_from (fl : flags) (r : regex) (b a : text) : option (nat * Match) :=
  match match_at fl r b a with
  | Some m => Some (0, m)
  | None =>
      match a with
      | [] => None
      | x :: a' =>
          match search_from fl r (x :: b) a' with
          | Some (i, m) => Some (S i, m)
          | None => None
          end
      end
  end.

Definition search (fl : flags) (r : regex) (s : text) : option (nat * Match) :=
  search_from fl r [] s.

(** [Pattern.sub(repl, string)] with a function [repl], left to right.
    [skip] counts the characters of the current match still to be dropped:
    while it is positive the cursor moves on without output and without a
    match attempt, so the next attempt starts where the match ended.  At
    an empty match the replacement is emitted, then the next character is
    copied.  An exception raised by [repl] ends the substitution. *)
Fixpoint sub_loop (fl : flags) (r : regex) (repl : Match -> result text)
         (skip : nat) (b a : text) : result text :=
  match skip with
  | S n =>
      match a with
      | [] => Ok []
      | x :: a' => sub_loop fl r repl n (x :: b) a'
      end
  | O =>
      match match_at fl r b a with
      | Some m =>
          out <- repl m ;;
          match a with
          | [] => Ok out
          | x :: a' =>
              match span_len m with
              | S n =>
                  rest <- sub_loop fl r repl n (x :: b) a' ;;
                  Ok (out ++ rest)
              | O =>
                  rest <- sub_loop fl r repl 0 (x :: b) a' ;;
                  Ok (out ++ x :: rest)
              end
          end
      | None =>
          match a with
          | [] => Ok []
          | x :: a' =>
              rest <- sub_loop fl r repl 0 (x :: b) a' ;;
              Ok (x :: rest)
          end
      end
  end.

Definition sub (fl : flags) (r : regex) (repl : Match -> result text)
           (s : text) : result text :=
  sub_loop fl r repl 0 [] s.

End PyRe.

(** ** The program *)

Module Md2zd.
Import PyRe.

(** [re.S | re.M] *)
Definition CODE_FLAGS : flags := {| MULTILINE := true; DOTALL := true |}.

Definition backticks : regex := Cat (One (Lit BT)) (Cat (One (Lit BT)) (One (Lit BT))).

(** [CODE_RE = re.compile(r"^```([a-z]+)?$(.+?)^```$", re.S | re.M)] *)
Definition CODE_RE : regex :=
  Cat Bol
 (Cat backticks
 (Cat (Opt (Group 1 (Plus (Range "a" "z"))))
 (Cat Eol
 (Cat (Group 2 (PlusLazy Dot))
 (Cat Bol
 (Cat backticks
      Eol)))))).

(** [CMARK_FLAGS = 132096], with the flags its comment names. *)
Definition CMARK_FLAGS : Z := 132096.
Definition UNSAFE : Z := Z.shiftl 1 17.
Definition SMART : Z := Z.shiftl 1 10.

(** [HtmlFormatter(nowrap=True, noclasses=True, style="colorful")] *)
Record HtmlFormatter := {
  nowrap : bool;
  noclasses : bool;
  style : text
}.
Definition FORMATTER : HtmlFormatter :=
  {| nowrap := true; noclasses := true; style := T "colorful" |}.

(** Options given to [tidy.parseString]. *)
Record TidyOptions := {
  indent : text;
  show_body_only : Z;
  tidy_mark : Z
}.
Definition TIDY_OPTIONS : TidyOptions :=
  {| indent := T "auto"; show_body_only := 1; tidy_mark := 0 |}.

(** How an f-string renders the first group: [None] prints as [None]. *)
Definition format_lang (lang : option text) : text :=
  match lang with
  | Some l => l
  | None => T "None"
  end.

(** [<pre class="highlight"><code class="language-{lang}">{formatted}</code></pre>] *)
Definition wrap (lang formatted : text) : text :=
  T "<pre class=" ++ [DQ] ++ T "highlight" ++ [DQ] ++ T "><code class=" ++ [DQ]
    ++ T "language-" ++ lang ++ [DQ] ++ T ">" ++ formatted ++ T "</code></pre>".

(** The external collaborators. *)

(** pygments: the lexer registry and [pygments.highlight]. *)
Class Pygments := {
  Lexer : Type;
  get_lexer_by_name : option text -> result Lexer;
  TextLexer : Lexer;
  highlight : text -> Lexer -> HtmlFormatter -> text
}.

(** cmarkgfm *)
Class Cmark := {
  markdown_to_html : text -> Z -> text
}.

(** tidy: [parseString] and the [str] of the document it returns *)
Class Tidy := {
  TidyDoc : Type;
  parseString : text -> TidyOptions -> TidyDoc;
  str_of_doc : TidyDoc -> text
}.

(** pathlib *)
Class Pathlib := {
  Path : Type;
  read_text : Path -> result text
}.

Section Program.

Context {pygments : Pygments} {cmarkgfm : Cmark} {tidy : Tidy} {pathlib : Pathlib}.

(** The lexer for a tag: the registered one, or [TextLexer] when the
    lookup raises [ValueError]; any other exception propagates. *)
Definition resolve_lexer (lang : option text) : result Lexer :=
  match get_lexer_by_name lang with
  | Ok lexer => Ok lexer
  | Raise ValueError => Ok TextLexer
  | Raise e => Raise e
  end.

(** [md_codeblock(match)].  [lang, code = match.groups()] needs exactly
    two groups, and raises [ValueError] otherwise.  The lexer is looked up
    first; then [pygments.highlight] runs on [code], the text of group 2,
    which takes part in every match of [CODE_RE]; on [None] it raises
    [AttributeError]. *)
Definition md_codeblock (m : Match) : result text :=
  match groups m with
  | [lang; code] =>
      lexer <- resolve_lexer lang ;;
      match code with
      | Some code =>
          let formatted := highlight code lexer FORMATTER in
          Ok (wrap (format_lang lang) formatted)
      | None => Raise AttributeError
      end
  | _ => Raise ValueError
  end.

(** [md_highlight(md) = CODE_RE.sub(md_codeblock, md)] *)
Definition md_highlight (md : text) : result text :=
  sub CODE_FLAGS CODE_RE md_codeblock md.

(** [md_parse(md) = cmarkgfm.markdown_to_html(md, CMARK_FLAGS)] *)
Definition md_parse (md : text) : text :=
  markdown_to_html md CMARK_FLAGS.

(** [md_highlight_and_parse(md) = md_parse(md_highlight(md))] *)
Definition md_highlight_and_parse (md : text) : result text :=
  hl <- md_highlight md ;;
  Ok (md_parse hl).

(** [tidy_html(html)] *)
Definition tidy_html (html : text) : text :=
  let result := parseString html TIDY_OPTIONS in
  str_of_doc result.

(** [md2kb(filepath)]; the value is what the program hands to [print],
    one entry per call.  The write to the standard output itself, which
    can fail, is outside the model. *)
Definition md2kb (filepath : Path) : result (list text) :=
  md <- read_text filepath ;;
  parsed <- md_highlight_and_parse md ;;
  let html := tidy_html parsed in
  Ok [html].

End Program.

End Md2zd.

(** ** Fences in the text *)

Module Fence.
Import PyRe Md2zd.

Definition lower (c : ascii) : bool := atom_ok CODE_FLAGS (Range "a" "z") c.
Definition bol (b : text) : bool := at_bol CODE_FLAGS b.
Definition eol (a : text) : bool := at_eol CODE_FLAGS a.

Definition fence3 : text := [BT; BT; BT].

(** The longest run of [[a-z]] at the head of [a], and what follows it. *)
Fixpoint take_lower (a : text) : text :=
  match a with
  | x :: a' => if lower x then x :: take_lower a' else []
  | [] => []
  end.

Fixpoint drop_lower (a : text) : text :=
  match a with
  | x :: a' => if lower x then drop_lower a' else a
  | [] => []
  end.

(** The closing line is here: the cursor is at a line start, on three
    backticks that end their line.  The result is the text after them. *)
Definition closes (acc a : text) : option text :=
  if bol acc then
    match a with
    | x1 :: x2 :: x3 :: r =>
        if Ascii.eqb x1 BT && Ascii.eqb x2 BT && Ascii.eqb x3 BT && eol r
        then Some r else None
    | _ => None
    end
  else None.

(** The first closing line at or after the cursor; [acc] is the body read
    so far, nearest character first. *)
Fixpoint find_close (acc a : text) : option (text * text) :=
  match closes acc a with
  | Some r => Some (rev acc, r)
  | None =>
      match a with
      | [] => None
      | x :: a' => find_close (x :: acc) a'
      end
  end.

Definition lang_of (tag : text) : option text :=
  match tag with
  | [] => None
  | _ => Some tag
  end.

(** What [CODE_RE] does with the cursor between [b] and [a], written as a
    scanner. *)
Definition fence_at (b a : text) : option Match :=
  if bol b then
    match a with
    | x1 :: x2 :: x3 :: a1 =>
        if Ascii.eqb x1 BT && Ascii.eqb x2 BT && Ascii.eqb x3 BT then
          match drop_lower a1 with
          | x :: a3 =>
              if Ascii.eqb x LF then
                match find_close [x] a3 with
                | Some (body, _) =>
                    Some (MkMatch (3 + length (take_lower a1) + length body + 3)
                                  [lang_of (take_lower a1); Some body])
                | None => None
                end
              else None
          | [] => None
          end
        else None
    | _ => None
    end
  else None.

(** What follows group 2 in [CODE_RE]: the closing line. *)
Definition closing : regex := Cat Bol (Cat backticks Eol).

(** The continuation of the lazy body: record group 2, then [closing]. *)
Definition body_cont (s2 : mstate) : cont :=
  fun s' =>
    run CODE_FLAGS closing Some
        (MkSt (before s') (after s') ((2, consumed s2 s') :: caps s')).

(** [CODE_RE] after the optional tag: [$(.+?)^```$]. *)
Definition after_tag : regex := Cat Eol (Cat (Group 2 (PlusLazy Dot)) closing).

End Fence.

(** ** Documents as lines *)

Module Lines.
Import PyRe Md2zd Fence.

(** A line holds no newline. *)
Definition lineb (l : text) : bool := forallb (fun c => negb (Ascii.eqb c LF)) l.

(** Every line preceded by its newline; a document is its first line
    followed by the others in this form. *)
Definition rest_lines (ls : list text) : text := flat_map (fun l => LF :: l) ls.

Definition join_lines (ls : list text) : text :=
  match ls with
  | [] => []
  | l :: r => l ++ rest_lines r
  end.

(** A closing line: exactly three backticks. *)
Definition is_close (l : text) : bool :=
  match l with
  | [x1; x2; x3] => Ascii.eqb x1 BT && Ascii.eqb x2 BT && Ascii.eqb x3 BT
  | _ => false
  end.

(** An opening line: three backticks, then lowercase letters only. *)
Definition open_tag (l : text) : option text :=
  match l with
  | x1 :: x2 :: x3 :: t =>
      if Ascii.eqb x1 BT && Ascii.eqb x2 BT && Ascii.eqb x3 BT && forallb lower t
      then Some t else None
  | _ => None
  end.

Definition is_open (l : text) : bool :=
  match open_tag l with
  | Some _ => true
  | None => false
  end.

(** The lines up to the first closing line, and the lines after it. *)
Fixpoint split_close (ls : list text) : option (list text * list text) :=
  match ls with
  | [] => None
  | l :: r =>
      if is_close l then Some ([], r)
      else
        match split_close r with
        | Some (body, rest) => Some (l :: body, rest)
        | None => None
        end
  end.

(** Group 2 for a fence with the given body lines: the newline that ends
    the opening line, then each body line with its newline. *)
Definition code_of (body : list text) : text :=
  LF :: flat_map (fun l => l ++ [LF]) body.

(** The text of lines each ended by carriage return and line feed. *)
Definition crlf_doc (ls : list text) : text :=
  flat_map (fun l => l ++ [CR; LF]) ls.

End Lines.

(** ** Documents as plain lines and fences *)

Module Doc.
Import PyRe Md2zd Fence Lines.

(** A document cut into plain lines and fences. *)
Inductive item :=
| Plain (l : text)
| Fenced (tag : text) (body : list text).

Definition item_lines (it : item) : list text :=
  match it with
  | Plain l => [l]
  | Fenced tag body => (fence3 ++ tag) :: body ++ [fence3]
  end.

Definition doc_lines (items : list item) : list text := flat_map item_lines items.

(** A plain line is not an opening line; a fence has a lowercase tag
    (maybe empty) and no closing line in its body. *)
Definition item_ok (it : item) : bool :=
  match it with
  | Plain l => lineb l && negb (is_open l)
  | Fenced tag body =>
      forallb lower tag && forallb (fun l => lineb l && negb (is_close l)) body
  end.

(** Lines after the last fence: after the first of them, none is a
    closing line. *)
Definition tail_ok (tail : list text) : bool :=
  forallb lineb tail && forallb (fun l => negb (is_close l)) (tl tail).

Definition fence_count (items : list item) : nat :=
  length (filter (fun it => match it with Fenced _ _ => true | Plain _ => false end) items).

(** The match object [repl] receives for a fence. *)
Definition fence_match (tag : text) (body : list text) : Match :=
  MkMatch (3 + length tag + length (code_of body) + 3)
          [lang_of tag; Some (code_of body)].

Section Render.

Variable repl : Match -> result text.

Definition item_out (it : item) : result text :=
  match it with
  | Plain l => Ok l
  | Fenced tag body => repl (fence_match tag body)
  end.

(** The items rendered in order; the first exception ends it. *)
Fixpoint render (items : list item) : result (list text) :=
  match items with
  | [] => Ok []
  | it :: rest =>
      out <- item_out it ;;
      outs <- render rest ;;
      Ok (out :: outs)
  end.

End Render.

End Doc.

(** ** The blocks fences become *)

Module Blocks.
Import PyRe Md2zd Fence Lines Doc.

(** The opening tag of the outer element of a block. *)
Definition HIGHLIGHT_MARK : text :=
  T "<pre class=" ++ [DQ] ++ T "highlight" ++ [DQ] ++ T ">".

(** [pat] is at the head of [s]. *)
Fixpoint prefixb (pat s : text) : bool :=
  match pat with
  | [] => true
  | p :: pat' =>
      match s with
      | [] => false
      | c :: s' => Ascii.eqb p c && prefixb pat' s'
      end
  end.

(** The number of places of [s] where [pat] occurs. *)
Fixpoint occurrences (pat s : text) : nat :=
  (if prefixb pat s then 1 else 0) +
  match s with
  | [] => 0
  | _ :: s' => occurrences pat s'
  end.

Definition mark_free (s : text) : bool := Nat.eqb (occurrences HIGHLIGHT_MARK s) 0.

(** The character [c] is not in [s]. *)
Definition absent (c : ascii) (s : text) : bool :=
  forallb (fun x => negb (Ascii.eqb x c)) s.

Section Html.

Context {pygments : Pygments}.

(** The lexer lookup raises nothing but [ValueError]. *)
Definition only_ValueError : Prop :=
  forall lang e, get_lexer_by_name lang = Raise e -> e = ValueError.

(** The lexer a tag is highlighted with. *)
Definition lexer_of (lang : option text) : Lexer :=
  match get_lexer_by_name lang with
  | Ok lexer => lexer
  | Raise _ => TextLexer
  end.

(** The block a fence becomes. *)
Definition fence_html (tag : text) (body : list text) : text :=
  wrap (format_lang (lang_of tag))
       (highlight (code_of body) (lexer_of (lang_of tag)) FORMATTER).

Definition item_html (it : item) : text :=
  match it with
  | Plain l => l
  | Fenced tag body => fence_html tag body
  end.

(** The blocks of a document, in order. *)
Definition wrappers (items : list item) : list text :=
  flat_map (fun it =>
              match it with
              | Plain _ => []
              | Fenced tag body => [fence_html tag body]
              end) items.

(** Neither the plain lines nor the highlighted code of the fences hold
    the text of [HIGHLIGHT_MARK] themselves. *)
Definition item_clean (it : item) : bool :=
  match it with
  | Plain l => mark_free l
  | Fenced tag body =>
      mark_free (highlight (code_of body) (lexer_of (lang_of tag)) FORMATTER)
  end.

End Html.

End Blocks.

(** ** A small lexer registry, to run the program on examples *)

Module Toy.
Import Md2zd.

Inductive lexer := PythonLexer | PlainLexer.

Definition text_eqb (x y : text) : bool :=
  if list_eq_dec ascii_dec x y then true else false.

(** Only [python] is registered; any other alias raises [ClassNotFound],
    a [ValueError]. *)
Definition lookup (alias : option text) : result lexer :=
  match alias with
  | Some name => if text_eqb name (T "python") then Ok PythonLexer else Raise ValueError
  | None => Raise ValueError
  end.

(** Highlighting leaves the code as it is, between marks naming the lexer. *)
Definition mark (code : text) (lx : lexer) (f : HtmlFormatter) : text :=
  match lx with
  | PythonLexer => T "<py>" ++ code ++ T "</py>"
  | PlainLexer => code
  end.

Definition pygments : Pygments :=
  {| Lexer := lexer;
     get_lexer_by_name := lookup;
     TextLexer := PlainLexer;
     highlight := mark |}.

Definition md_highlight : text -> result text :=
  @Md2zd.md_highlight pygments.

End Toy.

(** ** Sample documents *)

Module Samples.
Import PyRe Md2zd Fence Lines Doc Blocks.

(** Flags, and the two things the examples of the engine look at: the
    length of a match at the start of the text and the place [search]
    finds. *)
Definition plain : flags := {| MULTILINE := false; DOTALL := false |}.
Definition multiline : flags := {| MULTILINE := true; DOTALL := false |}.

Definition span_at (fl : flags) (r : regex) (s : text) : option nat :=
  option_map (@span_len) (match_at fl r [] s).

Definition found (fl : flags) (r : regex) (s : text) : option nat :=
  option_map fst (search fl r s).

Definition toy_html : item -> text := @item_html Toy.pygments.

(** A title, a python fence, a line of text and a fence without tag. *)
Definition sample_doc : list item :=
  [Plain (T "# Title"); Plain []; Fenced (T "python") [T "print(1)"]; Plain [];
   Plain (T "Some text."); Fenced [] [T "plain"; T "block"]].

(** Backticks inside lines only: no fence. *)
Definition midline_doc : list text :=
  [T "Use ``` to fence code."; T "```Python"; T "x = 1"; T "  ```"; T "``` "].

(** A complete fence, then a fence that is never closed. *)
Definition unterminated_doc : list text :=
  [T "```python"; T "x"; fence3; []; T "```python"; T "y"].

End Samples.

(** ** A second lexer registry *)

Module ToyWorld.
Import Md2zd.

(** A registry whose lookup does not accept [None]: it raises
    [AttributeError] there and behaves as [Toy.lookup] elsewhere. *)
Definition strict_lookup (alias : option text) : result Toy.lexer :=
  match alias with
  | None => Raise AttributeError
  | Some _ => Toy.lookup alias
  end.

Definition strict_pygments : Pygments :=
  {| Lexer := Toy.lexer;
     get_lexer_by_name := strict_lookup;
     TextLexer := Toy.PlainLexer;
     highlight := Toy.mark |}.

End ToyWorld.

(** ** The substitution as one pass over the lines *)

Module Scanner.
Import PyRe Md2zd Fence Lines Doc.

(** The lines of a text: the pieces between its newlines. *)
Fixpoint split_lines (s : text) : list text :=
  match s with
  | [] => [[]]
  | c :: s' =>
      if Ascii.eqb c LF then [] :: split_lines s'
      else
        match split_lines s' with
        | l :: ls => (c :: l) :: ls
        | [] => [[c]]
        end
  end.

Section Scan.

Variable repl : Match -> result text.

(** The single pass over the lines that the design notes describe, to
    compare [CODE_RE.sub] with.  The state is [None] outside a fence and
    [Some (tag, acc)] inside one opened with [tag], [acc] holding the body
    lines read so far, last first.  Outside, an opening line enters a fence
    and any other line is copied; inside, a closing line emits the block and
    leaves, any other line joins the body.  When the lines end inside a
    fence, the opening line and the body are emitted as they were. *)
Fixpoint scan (st : option (text * list text)) (ls : list text)
  : result (list text) :=
  match ls with
  | [] =>
      match st with
      | None => Ok []
      | Some (tag, acc) => Ok ((fence3 ++ tag) :: rev acc)
      end
  | l :: ls' =>
      match st with
      | None =>
          match open_tag l with
          | Some tag => scan (Some (tag, [])) ls'
          | None =>
              outs <- scan None ls' ;;
              Ok (l :: outs)
          end
      | Some (tag, acc) =>
          if is_close l then
            out <- repl (fence_match tag (rev acc)) ;;
            outs <- scan None ls' ;;
            Ok (out :: outs)
          else scan (Some (tag, l :: acc)) ls'
      end
  end.

End Scan.

Section Resolve.

Context {pygments : Pygments}.

(** The lexer lookup for the tag of a fence returns or raises
    [ValueError]. *)
Definition item_resolves (it : item) : bool :=
  match it with
  | Plain _ => true
  | Fenced tag _ =>
      match resolve_lexer (lang_of tag) with
      | Ok _ => true
      | Raise _ => false
      end
  end.

End Resolve.

End Scanner.

(** * Part II: proofs *)

(** ** The engine on small patterns *)

Module PyReExamples.
Import PyRe Samples.

(** [a+] is greedy, [a+?] lazy. *)
Example greedy_plus : span_at plain (Plus (Lit "a")) (T "aaab") = Some 3.
Proof. reflexivity. Qed.

Example lazy_plus : span_at plain (PlusLazy (Lit "a")) (T "aaab") = Some 1.
Proof. reflexivity. Qed.

(** [a+?b]: the lazy run grows until the rest matches. *)
Example lazy_plus_grows :
  span_at plain (Cat (PlusLazy (Lit "a")) (One (Lit "b"))) (T "aaab") = Some 4.
Proof. reflexivity. Qed.

(** [[a-z]+c]: the greedy run gives back one character. *)
Example greedy_plus_gives_back :
  span_at plain (Cat (Plus (Range "a" "z")) (One (Lit "c"))) (T "abc") = Some 3.
Proof. reflexivity. Qed.

(** [^b] finds the second line only with [re.M]. *)
Example bol_multiline :
  found multiline (Cat Bol (One (Lit "b"))) [ "a"%char; LF; "b"%char ] = Some 2
  /\ found plain (Cat Bol (One (Lit "b"))) [ "a"%char; LF; "b"%char ] = None.
Proof. split; reflexivity. Qed.

(** [a$] before a newline in the middle of the text needs [re.M]; before
    the last newline it does not. *)
Example eol_multiline :
  found multiline (Cat (One (Lit "a")) Eol) [ "a"%char; LF; "b"%char ] = Some 0
  /\ found plain (Cat (One (Lit "a")) Eol) [ "a"%char; LF; "b"%char ] = None
  /\ found plain (Cat (One (Lit "a")) Eol) [ "a"%char; LF ] = Some 0.
Proof. repeat split. Qed.

(** [.] stops at a newline unless [re.S] is set. *)
Example dot_newline :
  span_at plain (Plus Dot) [ "a"%char; LF; "b"%char ] = Some 1
  /\ span_at {| MULTILINE := false; DOTALL := true |} (Plus Dot)
             [ "a"%char; LF; "b"%char ] = Some 3.
Proof. split; reflexivity. Qed.

(** A group that takes no part has no text. *)
Example absent_group :
  option_map (@groups) (match_at plain (Cat (Opt (Group 1 (Plus (Lit "a")))) (One (Lit "b")))
                                 [] (T "b")) = Some [None]
  /\ option_map (@groups) (match_at plain (Cat (Opt (Group 1 (Plus (Lit "a")))) (One (Lit "b")))
                                    [] (T "aab")) = Some [Some (T "aa")].
Proof. split; reflexivity. Qed.

(** [re.sub] with the pattern [(x+)?] and the replacement [-] on [abxd]:
    empty matches are replaced too, also next to the match of [x]. *)
Example sub_empty_matches :
  sub plain (Opt (Group 1 (Plus (Lit "x")))) (fun _ => Ok (T "-")) (T "abxd") =
  Ok (T "-a-b--d-").
Proof. reflexivity. Qed.

End PyReExamples.

(** ** One match of [CODE_RE], read off the text *)

Module FenceFacts.
Import PyRe Md2zd Fence.

Lemma eqb_LF (x : ascii) : Ascii.eqb x LF = true -> x = LF.
Proof. apply Ascii.eqb_eq. Qed.

Lemma lower_LF : lower LF = false.
Proof. reflexivity. Qed.

Lemma lower_not_LF (x : ascii) : lower x = true -> Ascii.eqb x LF = false.
Proof.
  intros H. destruct (Ascii.eqb x LF) eqn:E; [|reflexivity].
  apply eqb_LF in E. subst x. discriminate H.
Qed.

Lemma take_drop_lower (a : text) : take_lower a ++ drop_lower a = a.
Proof.
  induction a as [|x a IH]; simpl; [reflexivity|].
  destruct (lower x); simpl; [now rewrite IH | reflexivity].
Qed.

Lemma take_lower_all (a : text) : forallb lower (take_lower a) = true.
Proof.
  induction a as [|x a IH]; simpl; [reflexivity|].
  destruct (lower x) eqn:E; simpl; [now rewrite E | reflexivity].
Qed.

Lemma drop_lower_head (a : text) :
  match drop_lower a with
  | x :: _ => lower x = false
  | [] => True
  end.
Proof.
  induction a as [|x a IH]; simpl; [exact I|].
  destruct (lower x) eqn:E; [exact IH | exact E].
Qed.

Lemma consumed_app (x b : text) :
  rev (firstn (length (x ++ b) - length b) (x ++ b)) = rev x.
Proof.
  rewrite length_app. replace (length x + length b - length b) with (length x) by lia.
  rewrite firstn_app, firstn_all. replace (length x - length x) with 0 by lia.
  simpl. now rewrite app_nil_r.
Qed.

(** Greedy [[a-z]+] before a [$]: only the longest run can be followed by
    a line end, so giving characters back never helps. *)
Lemma plus_greedy_eol (k : cont) :
  (forall s, eol (after s) = false -> k s = None) ->
  forall a b c,
    plus_greedy lower k b a c =
    match take_lower a with
    | [] => None
    | _ => k (MkSt (rev (take_lower a) ++ b) (drop_lower a) c)
    end.
Proof.
  intros Hk. induction a as [|x a IH]; intros b c; simpl; [reflexivity|].
  destruct (lower x) eqn:Ex; [|reflexivity].
  rewrite IH. simpl. rewrite <- app_assoc. simpl.
  destruct a as [|y a]; simpl; [reflexivity|].
  destruct (lower y) eqn:Ey; simpl; [|reflexivity].
  destruct (k _) eqn:Ek; [reflexivity|].
  apply Hk. simpl. unfold eol, at_eol.
  now rewrite (lower_not_LF _ Ey).
Qed.

Lemma body_cont_closes (b2 a2 : text) (c2 : list (nat * text)) (acc a : text) c :
  body_cont (MkSt b2 a2 c2) (MkSt (acc ++ b2) a c) =
  match closes (acc ++ b2) a with
  | Some r => Some (MkSt (fence3 ++ acc ++ b2) r ((2, rev acc) :: c))
  | None => None
  end.
Proof.
  unfold body_cont, closes, closing, backticks, consumed, bol, eol.
  cbn [run before after caps atom_ok].
  rewrite consumed_app.
  destruct (at_bol CODE_FLAGS (acc ++ b2)); [|reflexivity].
  destruct a as [|x1 [|x2 [|x3 r]]]; try reflexivity.
  - now destruct (Ascii.eqb x1 BT).
  - destruct (Ascii.eqb x1 BT); [|reflexivity]. now destruct (Ascii.eqb x2 BT).
  - destruct (Ascii.eqb x1 BT) eqn:E1; [|reflexivity].
    destruct (Ascii.eqb x2 BT) eqn:E2; [|reflexivity].
    destruct (Ascii.eqb x3 BT) eqn:E3; [|reflexivity].
    apply Ascii.eqb_eq in E1, E2, E3. subst.
    cbn [andb]. now destruct (at_eol CODE_FLAGS r).
Qed.

Lemma closes_bol (x : ascii) (acc b2 a : text) :
  closes ((x :: acc) ++ b2) a = closes (x :: acc) a.
Proof. reflexivity. Qed.

(** Lazy [.+?] before the closing line: the body ends at the first
    closing line. *)
Lemma plus_lazy_close (b2 a2 : text) (c2 : list (nat * text)) :
  forall a x acc c,
    match body_cont (MkSt b2 a2 c2) (MkSt ((x :: acc) ++ b2) a c) with
    | Some r => Some r
    | None =>
        plus_lazy (atom_ok CODE_FLAGS Dot) (body_cont (MkSt b2 a2 c2))
                  ((x :: acc) ++ b2) a c
    end =
    match find_close (x :: acc) a with
    | Some (body, rest) =>
        Some (MkSt (fence3 ++ rev body ++ b2) rest ((2, body) :: c))
    | None => None
    end.
Proof.
  induction a as [|y a IH]; intros x acc c.
  - rewrite body_cont_closes, closes_bol. cbn [find_close plus_lazy].
    destruct (closes (x :: acc) []); [|reflexivity].
    now rewrite rev_involutive.
  - rewrite body_cont_closes, closes_bol. cbn [find_close].
    destruct (closes (x :: acc) (y :: a)).
    + now rewrite rev_involutive.
    + cbn [plus_lazy atom_ok CODE_FLAGS DOTALL orb].
      exact (IH y (x :: acc) c).
Qed.

Lemma run_after_tag (s : mstate) :
  run CODE_FLAGS after_tag Some s =
  match after s with
  | x :: a3 =>
      if Ascii.eqb x LF then
        match find_close [x] a3 with
        | Some (body, rest) =>
            Some (MkSt (fence3 ++ rev body ++ before s) rest ((2, body) :: caps s))
        | None => None
        end
      else None
  | [] => None
  end.
Proof.
  destruct s as [b2 a2 c2]. unfold after_tag.
  cbn [run before after caps].
  change (fun s' => run CODE_FLAGS closing Some
                        (MkSt (before s') (after s')
                              ((2, consumed (MkSt b2 a2 c2) s') :: caps s')))
    with (body_cont (MkSt b2 a2 c2)).
  destruct a2 as [|x a3]; [reflexivity|].
  cbn [at_eol CODE_FLAGS MULTILINE orb]. rewrite andb_true_r.
  destruct (Ascii.eqb x LF); [|reflexivity].
  cbn [plus_lazy atom_ok CODE_FLAGS DOTALL orb].
  exact (plus_lazy_close b2 (x :: a3) c2 a3 x [] c2).
Qed.

Lemma run_after_tag_eol (s : mstate) :
  eol (after s) = false -> run CODE_FLAGS after_tag Some s = None.
Proof.
  rewrite run_after_tag. unfold eol, at_eol.
  destruct (after s) as [|x a3]; [discriminate|].
  cbn [CODE_FLAGS MULTILINE orb]. rewrite andb_true_r.
  now intros ->.
Qed.

Lemma drop_lower_none (a : text) : take_lower a = [] -> drop_lower a = a.
Proof.
  intros H. rewrite <- (take_drop_lower a) at 2. now rewrite H.
Qed.

(** The optional tag and everything after it. *)
Lemma run_tag (b3 a1 : text) :
  run CODE_FLAGS (Cat (Opt (Group 1 (Plus (Range "a" "z")))) after_tag) Some
      (MkSt b3 a1 []) =
  match drop_lower a1 with
  | x :: a3 =>
      if Ascii.eqb x LF then
        match find_close [x] a3 with
        | Some (body, rest) =>
            Some (MkSt (fence3 ++ rev body ++ rev (take_lower a1) ++ b3) rest
                       ((2, body) ::
                        match take_lower a1 with
                        | [] => []
                        | _ => [(1, take_lower a1)]
                        end))
        | None => None
        end
      else None
  | [] => None
  end.
Proof.
  cbn [run before after caps].
  change (atom_ok CODE_FLAGS (Range "a" "z")) with lower.
  rewrite plus_greedy_eol.
  2:{ intros s H. apply run_after_tag_eol. exact H. }
  destruct (take_lower a1) as [|t0 t] eqn:Et.
  - rewrite run_after_tag. cbn [before after caps].
    rewrite (drop_lower_none _ Et). reflexivity.
  - rewrite <- Et.
    rewrite (run_after_tag (MkSt b3 a1 [])).
    rewrite run_after_tag. cbn [before after caps].
    unfold consumed. cbn [before]. rewrite consumed_app, rev_involutive.
    assert (Ha : match a1 with x :: _ => Ascii.eqb x LF = false | [] => True end).
    { destruct a1 as [|x a1]; [exact I|]. simpl in Et.
      destruct (lower x) eqn:Ex; [|discriminate]. now apply lower_not_LF. }
    destruct (drop_lower a1) as [|x a3].
    + destruct a1; [reflexivity|]. now rewrite Ha.
    + destruct (Ascii.eqb x LF).
      * destruct (find_close [x] a3) as [[body rest]|].
        -- rewrite Et. reflexivity.
        -- destruct a1; [reflexivity|]. now rewrite Ha.
      * destruct a1; [reflexivity|]. now rewrite Ha.
Qed.

(** The opening anchor and backticks, before any rest [r]. *)
Lemma run_open (r : regex) (k : cont) (b a : text) :
  run CODE_FLAGS (Cat Bol (Cat backticks r)) k (MkSt b a []) =
  if bol b then
    match a with
    | x1 :: x2 :: x3 :: a1 =>
        if Ascii.eqb x1 BT && Ascii.eqb x2 BT && Ascii.eqb x3 BT
        then run CODE_FLAGS r k (MkSt (x3 :: x2 :: x1 :: b) a1 [])
        else None
    | _ => None
    end
  else None.
Proof.
  unfold backticks, bol. cbn [run before after caps atom_ok].
  destruct (at_bol CODE_FLAGS b); [|reflexivity].
  destruct a as [|x1 [|x2 [|x3 a1]]]; try reflexivity.
  - now destruct (Ascii.eqb x1 BT).
  - destruct (Ascii.eqb x1 BT); [|reflexivity]. now destruct (Ascii.eqb x2 BT).
  - destruct (Ascii.eqb x1 BT); [|reflexivity].
    destruct (Ascii.eqb x2 BT); [|reflexivity].
    now destruct (Ascii.eqb x3 BT).
Qed.

(** The matcher run on [CODE_RE] is the scanner [fence_at]. *)
Theorem match_at_fence (b a : text) :
  match_at CODE_FLAGS CODE_RE b a = fence_at b a.
Proof.
  unfold match_at, fence_at.
  change CODE_RE
    with (Cat Bol (Cat backticks
                       (Cat (Opt (Group 1 (Plus (Range "a" "z")))) after_tag))).
  rewrite run_open.
  destruct (bol b); [|reflexivity].
  destruct a as [|x1 [|x2 [|x3 a1]]]; try reflexivity.
  destruct (Ascii.eqb x1 BT && Ascii.eqb x2 BT && Ascii.eqb x3 BT); [|reflexivity].
  rewrite run_tag.
  destruct (drop_lower a1) as [|x a3]; [reflexivity|].
  destruct (Ascii.eqb x LF); [|reflexivity].
  destruct (find_close [x] a3) as [[body rest]|]; [|reflexivity].
  cbn [before caps]. f_equal. f_equal.
  - unfold fence3. rewrite !length_app, !length_rev. cbn [length]. lia.
  - change (seq 1 (ngroups _)) with [1; 2]. cbn [map lookup Nat.eqb].
    unfold lang_of. now destruct (take_lower a1).
Qed.

End FenceFacts.

(** ** One match of [CODE_RE], read off the lines *)

Module LinesFacts.
Import PyRe Md2zd Fence Lines FenceFacts.

Lemma eol_rest_lines (ls : list text) : eol (rest_lines ls) = true.
Proof. destruct ls; reflexivity. Qed.

Lemma eol_cases (r : text) : eol r = true -> r = [] \/ exists r', r = LF :: r'.
Proof.
  destruct r as [|x r]; [now left|]. unfold eol, at_eol.
  cbn [CODE_FLAGS MULTILINE orb]. rewrite andb_true_r. intros H.
  apply eqb_LF in H. subst. right. now exists r.
Qed.

Lemma is_close_eq (l : text) : is_close l = true -> l = fence3.
Proof.
  destruct l as [|x1 [|x2 [|x3 [|y t]]]]; try discriminate. simpl.
  intros H. apply andb_prop in H as [H H3]. apply andb_prop in H as [H1 H2].
  apply Ascii.eqb_eq in H1, H2, H3. now subst.
Qed.

Lemma closes_nil (acc : text) : closes acc [] = None.
Proof. unfold closes. now destruct (bol acc). Qed.

Lemma closes_LF (acc a : text) : closes acc (LF :: a) = None.
Proof. unfold closes. destruct (bol acc); [|reflexivity]. now destruct a as [|? [|? ?]]. Qed.

Lemma closes_nobol (acc a : text) : bol acc = false -> closes acc a = None.
Proof. unfold closes. now intros ->. Qed.

(** At the start of a line, [closes] tells whether that line is a closing
    line. *)
Lemma closes_line (acc l r : text) :
  lineb l = true -> eol r = true ->
  closes acc (l ++ r) = if bol acc && is_close l then Some r else None.
Proof.
  intros Hl Hr. destruct (bol acc) eqn:Eb; [|now apply closes_nobol].
  cbn [andb]. unfold closes. rewrite Eb.
  apply eol_cases in Hr.
  destruct l as [|x1 [|x2 [|x3 [|y t]]]]; cbn [app is_close].
  - destruct Hr as [-> | [r' ->]]; [reflexivity|]. now destruct r' as [|? [|? ?]].
  - destruct Hr as [-> | [r' ->]]; [reflexivity|].
    destruct r' as [|? ?]; [reflexivity|]. cbn. now rewrite andb_false_r.
  - destruct Hr as [-> | [r' ->]]; [reflexivity|]. cbn. now rewrite andb_false_r.
  - destruct (Ascii.eqb x1 BT && Ascii.eqb x2 BT && Ascii.eqb x3 BT); [|reflexivity].
    cbn [andb]. destruct Hr as [-> | [r' ->]]; reflexivity.
  - simpl in Hl. rewrite !andb_true_iff in Hl. destruct Hl as (_ & _ & _ & Hy & _).
    unfold eol, at_eol. apply negb_true_iff in Hy. rewrite Hy.
    cbn [andb]. now rewrite andb_false_r.
Qed.

(** Inside a line no closing line starts. *)
Lemma find_close_walk (xs : text) :
  forall acc r,
    bol acc = false -> lineb xs = true ->
    find_close acc (xs ++ r) = find_close (rev xs ++ acc) r.
Proof.
  induction xs as [|x xs IH]; intros acc r Hb Hl; [reflexivity|].
  simpl in Hl. apply andb_prop in Hl as [Hx Hl]. apply negb_true_iff in Hx.
  cbn [app find_close]. rewrite (closes_nobol _ _ Hb).
  rewrite IH; [|now simpl; rewrite Hx|exact Hl].
  cbn [rev]. now rewrite <- app_assoc.
Qed.

Lemma find_close_line (l acc r : text) :
  lineb l = true -> closes acc (l ++ r) = None ->
  find_close acc (l ++ r) = find_close (rev l ++ acc) r.
Proof.
  intros Hl Hc. destruct l as [|x xs]; [reflexivity|].
  simpl in Hl. apply andb_prop in Hl as [Hx Hl]. apply negb_true_iff in Hx.
  cbn [app find_close]. cbn [app] in Hc. rewrite Hc.
  rewrite find_close_walk; [|now simpl; rewrite Hx|exact Hl].
  cbn [rev]. now rewrite <- app_assoc.
Qed.

Lemma split_close_cons (l : text) (r : list text) :
  split_close (l :: r) =
  if is_close l then Some ([], r)
  else
    match split_close r with
    | Some (body, rest) => Some (l :: body, rest)
    | None => None
    end.
Proof. reflexivity. Qed.

(** The body ends at the first closing line. *)
Lemma find_close_lines (ls : list text) :
  forall l acc,
    bol acc = true -> lineb l = true -> forallb lineb ls = true ->
    find_close acc (l ++ rest_lines ls) =
    match split_close (l :: ls) with
    | Some (body, rest) =>
        Some (rev acc ++ flat_map (fun l => l ++ [LF]) body, rest_lines rest)
    | None => None
    end.
Proof.
  induction ls as [|l2 ls IH]; intros l acc Hb Hl Hls.
  - cbn [split_close]. destruct (is_close l) eqn:Ec.
    + apply is_close_eq in Ec. subst l. cbn [rest_lines flat_map app fence3].
      unfold find_close, closes. rewrite Hb. cbn. now rewrite app_nil_r.
    + pose proof (closes_line acc l [] Hl eq_refl) as Hc.
      rewrite Hb, Ec in Hc. cbn [andb] in Hc.
      cbn [rest_lines flat_map]. rewrite find_close_line by assumption.
      cbn [find_close]. now rewrite closes_nil.
  - cbn [forallb] in Hls. apply andb_prop in Hls as [Hl2 Hls].
    rewrite split_close_cons. pose proof (closes_line acc l (rest_lines (l2 :: ls)) Hl
                                               (eol_rest_lines _)) as Hc.
    rewrite Hb in Hc. cbn [andb] in Hc.
    destruct (is_close l) eqn:Ec.
    + unfold find_close at 1.
      destruct (l ++ rest_lines (l2 :: ls)); rewrite Hc; cbn; now rewrite app_nil_r.
    + rewrite find_close_line by assumption.
      change (rest_lines (l2 :: ls)) with (LF :: l2 ++ rest_lines ls).
      cbn [find_close]. rewrite closes_LF.
      rewrite IH; [|reflexivity|exact Hl2|exact Hls].
      destruct (split_close (l2 :: ls)) as [[body rest]|]; [|reflexivity].
      cbn [rev flat_map]. rewrite rev_app_distr, rev_involutive.
      now rewrite <- !app_assoc.
Qed.

Lemma take_drop_tag (t r : text) :
  forallb lower t = true -> eol r = true ->
  take_lower (t ++ r) = t /\ drop_lower (t ++ r) = r.
Proof.
  intros Ht Hr. induction t as [|x t IH].
  - apply eol_cases in Hr. destruct Hr as [-> | [r' ->]]; now split.
  - simpl in Ht. apply andb_prop in Ht as [Hx Ht].
    destruct (IH Ht) as [IH1 IH2]. cbn [app take_lower drop_lower].
    rewrite Hx. now rewrite IH1, IH2.
Qed.

Lemma drop_lower_bad (t r : text) :
  lineb t = true -> forallb lower t = false ->
  match drop_lower (t ++ r) with
  | x :: _ => Ascii.eqb x LF = false
  | [] => False
  end.
Proof.
  induction t as [|x t IH]; intros Hl Ht; [discriminate|].
  simpl in Hl. apply andb_prop in Hl as [Hx Hl]. apply negb_true_iff in Hx.
  cbn [app drop_lower]. cbn [forallb] in Ht.
  destruct (lower x); [now apply IH | exact Hx].
Qed.

(** Three backticks at the head of the text are three backticks at the
    head of its first line. *)
Lemma open3_line (A : Type) (F : text -> option A) (l r : text) :
  lineb l = true -> eol r = true ->
  match l ++ r with
  | x1 :: x2 :: x3 :: a1 =>
      if Ascii.eqb x1 BT && Ascii.eqb x2 BT && Ascii.eqb x3 BT then F a1 else None
  | _ => None
  end =
  match l with
  | x1 :: x2 :: x3 :: t =>
      if Ascii.eqb x1 BT && Ascii.eqb x2 BT && Ascii.eqb x3 BT then F (t ++ r) else None
  | _ => None
  end.
Proof.
  intros Hl Hr. apply eol_cases in Hr.
  destruct l as [|x1 [|x2 [|x3 t]]]; cbn [app]; [| | |reflexivity].
  - destruct Hr as [-> | [r' ->]]; [reflexivity|]. now destruct r' as [|? [|? ?]].
  - destruct Hr as [-> | [r' ->]]; [reflexivity|].
    destruct r' as [|? ?]; [reflexivity|]. cbn. now rewrite andb_false_r.
  - destruct Hr as [-> | [r' ->]]; [reflexivity|]. cbn. now rewrite andb_false_r.
Qed.

(** One match attempt at the start of line [l], with the lines [ls] after
    it: there is a match exactly when [l] is an opening line and a closing
    line follows, and the body runs to the first closing line. *)
Theorem fence_at_line (b l : text) (ls : list text) :
  lineb l = true -> forallb lineb ls = true ->
  fence_at b (l ++ rest_lines ls) =
  if bol b then
    match open_tag l with
    | Some tag =>
        match split_close ls with
        | Some (body, _) =>
            Some (MkMatch (3 + length tag + length (code_of body) + 3)
                          [lang_of tag; Some (code_of body)])
        | None => None
        end
    | None => None
    end
  else None.
Proof.
  intros Hl Hls. unfold fence_at. destruct (bol b); [|reflexivity].
  rewrite open3_line by (assumption || apply eol_rest_lines).
  unfold open_tag.
  destruct l as [|x1 [|x2 [|x3 t]]]; try reflexivity.
  destruct (Ascii.eqb x1 BT && Ascii.eqb x2 BT && Ascii.eqb x3 BT); [|reflexivity].
  cbn [andb].
  assert (Ht : lineb t = true).
  { simpl in Hl. rewrite !andb_true_iff in Hl. tauto. }
  destruct (forallb lower t) eqn:El.
  - destruct (take_drop_tag t (rest_lines ls) El (eol_rest_lines ls)) as [E1 E2].
    rewrite E1, E2. destruct ls as [|l1 ls]; [reflexivity|].
    change (rest_lines (l1 :: ls)) with (LF :: l1 ++ rest_lines ls).
    cbn [forallb] in Hls. apply andb_prop in Hls as [Hl1 Hls].
    change (Ascii.eqb LF LF) with true. cbn iota.
    rewrite find_close_lines by (reflexivity || assumption).
    now destruct (split_close (l1 :: ls)) as [[body rest]|].
  - pose proof (drop_lower_bad t (rest_lines ls) Ht El) as H.
    destruct (drop_lower (t ++ rest_lines ls)); [contradiction|]. now rewrite H.
Qed.

Lemma split_close_app (ls body rest : list text) :
  split_close ls = Some (body, rest) -> ls = body ++ fence3 :: rest.
Proof.
  revert body rest. induction ls as [|l ls IH]; intros body rest; [discriminate|].
  rewrite split_close_cons. destruct (is_close l) eqn:Ec.
  - intros [= <- <-]. apply is_close_eq in Ec. now subst.
  - destruct (split_close ls) as [[body' rest']|]; [|discriminate].
    intros [= <- <-]. cbn [app]. f_equal. now apply IH.
Qed.

Lemma split_close_none (ls : list text) :
  forallb (fun l => negb (is_close l)) ls = true -> split_close ls = None.
Proof.
  induction ls as [|l ls IH]; [reflexivity|]. cbn [forallb]. intros H.
  apply andb_prop in H as [Hl H]. apply negb_true_iff in Hl.
  rewrite split_close_cons, Hl. now rewrite IH.
Qed.

Lemma split_close_first (body rest : list text) :
  forallb (fun l => negb (is_close l)) body = true ->
  split_close (body ++ fence3 :: rest) = Some (body, rest).
Proof.
  induction body as [|l body IH]; [reflexivity|]. cbn [forallb app]. intros H.
  apply andb_prop in H as [Hl H]. apply negb_true_iff in Hl.
  rewrite split_close_cons, Hl. now rewrite IH.
Qed.

Lemma rest_lines_app (xs ys : list text) :
  rest_lines (xs ++ ys) = rest_lines xs ++ rest_lines ys.
Proof. apply flat_map_app. Qed.

Lemma code_of_rest (body : list text) : rest_lines body ++ [LF] = code_of body.
Proof.
  unfold code_of. induction body as [|l body IH]; [reflexivity|].
  cbn [rest_lines flat_map app]. fold (rest_lines body).
  rewrite <- app_assoc, IH. cbn [app]. now rewrite <- app_assoc.
Qed.

(** The matched span, then the lines after the closing line. *)
Lemma fence_span (l : text) (body rest : list text) :
  l ++ rest_lines (body ++ fence3 :: rest) =
  (l ++ code_of body ++ fence3) ++ rest_lines rest.
Proof.
  rewrite rest_lines_app. cbn [rest_lines flat_map]. fold (rest_lines rest).
  rewrite <- code_of_rest. rewrite <- !app_assoc. reflexivity.
Qed.

Lemma tl_rest_lines (ls : list text) : tl (rest_lines ls) = join_lines ls.
Proof. now destruct ls. Qed.

End LinesFacts.

(** ** The substitution, line by line *)

Module SubstFacts.
Import PyRe Md2zd Fence Lines Doc FenceFacts LinesFacts.

Lemma fmap_fmap (A B C : Type) (f : A -> B) (g : B -> C) (r : result A) :
  fmap g (fmap f r) = fmap (fun a => g (f a)) r.
Proof. now destruct r. Qed.

Lemma fmap_ext (A B : Type) (f g : A -> B) (r : result A) :
  (forall a, f a = g a) -> fmap f r = fmap g r.
Proof. intros H. destruct r; simpl; [now rewrite H | reflexivity]. Qed.

Lemma fmap_id (A : Type) (r : result A) : fmap (fun a => a) r = r.
Proof. now destruct r. Qed.

Section Repl.

Variable repl : Match -> result text.

Local Notation "'hl'" := (sub_loop CODE_FLAGS CODE_RE repl).

Lemma fence_at_nil (b : text) : fence_at b [] = None.
Proof. unfold fence_at. now destruct (bol b). Qed.

Lemma fence_at_LF (b a : text) : fence_at b (LF :: a) = None.
Proof. unfold fence_at. destruct (bol b); [|reflexivity]. now destruct a as [|? [|? ?]]. Qed.

Lemma fence_at_nobol (b a : text) : bol b = false -> fence_at b a = None.
Proof. unfold fence_at. now intros ->. Qed.

Lemma hl_nil (b : text) : hl 0 b [] = Ok [].
Proof. cbn [sub_loop]. now rewrite match_at_fence, fence_at_nil. Qed.

Lemma hl_none (b : text) (x : ascii) (a : text) :
  fence_at b (x :: a) = None ->
  hl 0 b (x :: a) = fmap (cons x) (hl 0 (x :: b) a).
Proof. intros H. cbn [sub_loop]. now rewrite match_at_fence, H. Qed.

Lemma hl_some (b : text) (x : ascii) (a : text) (m : Match) (n : nat) :
  fence_at b (x :: a) = Some m -> span_len m = S n ->
  hl 0 b (x :: a) = (out <- repl m ;; rest <- hl n (x :: b) a ;; Ok (out ++ rest)).
Proof. intros H Hn. cbn [sub_loop]. now rewrite match_at_fence, H, Hn. Qed.

Lemma hl_skip (xs : text) :
  forall b r, hl (length xs) b (xs ++ r) = hl 0 (rev xs ++ b) r.
Proof.
  induction xs as [|x xs IH]; intros b r; [reflexivity|].
  cbn [length app sub_loop]. rewrite IH. cbn [rev]. now rewrite <- app_assoc.
Qed.

(** A newline is copied, and the next position is a line start. *)
Lemma hl_LF (b a : text) : hl 0 b (LF :: a) = fmap (cons LF) (hl 0 (LF :: b) a).
Proof. apply hl_none, fence_at_LF. Qed.

(** Inside a line, characters are copied. *)
Lemma hl_walk (xs : text) :
  forall b r,
    bol b = false -> lineb xs = true ->
    hl 0 b (xs ++ r) = fmap (app xs) (hl 0 (rev xs ++ b) r).
Proof.
  induction xs as [|x xs IH]; intros b r Hb Hl.
  - cbn [app rev]. symmetry. apply fmap_id.
  - simpl in Hl. apply andb_prop in Hl as [Hx Hl]. apply negb_true_iff in Hx.
    cbn [app]. rewrite hl_none by now apply fence_at_nobol.
    rewrite IH; [|now simpl; rewrite Hx|exact Hl].
    rewrite fmap_fmap. cbn [rev]. now rewrite <- app_assoc.
Qed.

(** A line at which no match starts is copied. *)
Lemma hl_line_none (b l r : text) :
  fence_at b (l ++ r) = None -> lineb l = true ->
  hl 0 b (l ++ r) = fmap (app l) (hl 0 (rev l ++ b) r).
Proof.
  intros Hf Hl. destruct l as [|x xs].
  - cbn [app rev]. symmetry. apply fmap_id.
  - simpl in Hl. apply andb_prop in Hl as [Hx Hl]. apply negb_true_iff in Hx.
    cbn [app] in *. rewrite hl_none by exact Hf.
    rewrite hl_walk; [|now simpl; rewrite Hx|exact Hl].
    rewrite fmap_fmap. cbn [rev]. now rewrite <- app_assoc.
Qed.

Lemma lower_line (t : text) : forallb lower t = true -> lineb t = true.
Proof.
  induction t as [|x t IH]; [reflexivity|]. cbn [forallb]. intros H.
  apply andb_prop in H as [Hx H]. unfold lineb. cbn [forallb].
  rewrite (lower_not_LF _ Hx). now apply IH.
Qed.

Lemma open_tag_fence (tag : text) :
  forallb lower tag = true -> open_tag (fence3 ++ tag) = Some tag.
Proof. intros H. cbn. now rewrite H. Qed.

(** A fence is replaced by [repl] of its match, and the substitution
    goes on after the closing backticks. *)
Lemma hl_fence (b : text) (tag : text) (body rest : list text) :
  bol b = true -> forallb lower tag = true ->
  forallb (fun l => lineb l && negb (is_close l)) body = true ->
  forallb lineb rest = true ->
  hl 0 b ((fence3 ++ tag) ++ rest_lines (body ++ fence3 :: rest)) =
  (out <- repl (fence_match tag body) ;;
   r <- hl 0 (rev ((fence3 ++ tag) ++ code_of body ++ fence3) ++ b) (rest_lines rest) ;;
   Ok (out ++ r)).
Proof.
  intros Hb Ht Hbody Hrest.
  assert (Hbl : forallb lineb body = true
                /\ forallb (fun l => negb (is_close l)) body = true).
  { clear - Hbody. induction body as [|l body IH]; [now split|].
    cbn [forallb] in *. apply andb_prop in Hbody as [Hl Hbody].
    apply andb_prop in Hl as [Hl1 Hl2]. destruct (IH Hbody) as [IH1 IH2].
    now rewrite Hl1, Hl2, IH1, IH2. }
  destruct Hbl as [Hbl Hbc].
  assert (Hf : fence_at b ((fence3 ++ tag) ++ rest_lines (body ++ fence3 :: rest))
               = Some (fence_match tag body)).
  { rewrite fence_at_line.
    - rewrite Hb, (open_tag_fence _ Ht), (split_close_first _ _ Hbc). reflexivity.
    - apply lower_line in Ht. exact Ht.
    - rewrite forallb_app, Hbl. cbn [forallb andb]. exact Hrest. }
  rewrite fence_span in *.
  remember ([BT; BT] ++ tag ++ code_of body ++ fence3) as span' eqn:Espan.
  change ((fence3 ++ tag) ++ code_of body ++ fence3)
    with (BT :: [BT; BT] ++ tag ++ code_of body ++ fence3) in *.
  rewrite <- Espan in *. cbn [app] in Hf. cbn [app].
  rewrite (@hl_some _ _ _ _ (length span') Hf).
  - rewrite hl_skip. cbn [rev]. now rewrite <- app_assoc.
  - subst span'. unfold fence_match. cbn [span_len]. unfold fence3.
    rewrite !length_app. cbn [length]. lia.
Qed.

Lemma forallb_tl (A : Type) (P : A -> bool) (l : list A) :
  forallb P l = true -> forallb P (tl l) = true.
Proof.
  destruct l as [|a l]; [trivial|]. cbn [forallb tl]. intros H.
  now apply andb_prop in H.
Qed.

(** Lines among which no fence can close are copied. *)
Lemma hl_tail (tail : list text) :
  forall b,
    tail_ok tail = true ->
    hl 0 b (rest_lines tail) = Ok (rest_lines tail).
Proof.
  unfold tail_ok. induction tail as [|t0 rest IH]; intros b H; [apply hl_nil|].
  apply andb_prop in H as [Hl Hc]. cbn [forallb tl] in Hl, Hc.
  apply andb_prop in Hl as [Hl0 Hl].
  change (rest_lines (t0 :: rest)) with (LF :: t0 ++ rest_lines rest).
  rewrite hl_LF. rewrite hl_line_none.
  - rewrite IH; [reflexivity|]. now rewrite Hl, (forallb_tl _ _ Hc).
  - rewrite fence_at_line by assumption. rewrite (split_close_none _ Hc).
    destruct (bol (LF :: b)); [|reflexivity]. now destruct (open_tag t0).
  - exact Hl0.
Qed.

Lemma item_lines_ok (it : item) : item_ok it = true -> forallb lineb (item_lines it) = true.
Proof.
  destruct it as [l|tag body]; cbn [item_ok item_lines forallb]; intros H.
  - apply andb_prop in H as [H _]. now rewrite H.
  - apply andb_prop in H as [Ht Hb]. rewrite forallb_app. cbn [forallb].
    change (lineb fence3) with true. rewrite andb_true_r.
    assert (Hl : lineb (fence3 ++ tag) = true) by (apply (lower_line tag Ht)).
    rewrite Hl. cbn [andb].
    induction body as [|l body IH]; [reflexivity|]. cbn [forallb] in *.
    apply andb_prop in Hb as [Hb1 Hb2]. apply andb_prop in Hb1 as [Hb1 _].
    now rewrite Hb1, IH.
Qed.

Lemma doc_lines_ok (items : list item) (tail : list text) :
  forallb item_ok items = true -> forallb lineb tail = true ->
  forallb lineb (doc_lines items ++ tail) = true.
Proof.
  intros Hi Ht. induction items as [|it items IH]; [exact Ht|].
  cbn [forallb] in Hi. apply andb_prop in Hi as [Hit Hi].
  unfold doc_lines. cbn [flat_map]. rewrite <- app_assoc, forallb_app.
  rewrite (item_lines_ok _ Hit). now apply IH.
Qed.

(** The substitution over a document of well-formed items followed by a
    tail without closing lines: each fence is replaced by [repl] of its
    match, everything else is copied. *)
Lemma hl_items (items : list item) (tail : list text) :
  forallb item_ok items = true -> tail_ok tail = true ->
  forall b,
    hl 0 b (rest_lines (doc_lines items ++ tail)) =
    fmap (fun outs => rest_lines (outs ++ tail)) (render repl items).
Proof.
  intros Hi Ht. induction items as [|it items IH]; intros b.
  - now apply hl_tail.
  - cbn [forallb] in Hi. apply andb_prop in Hi as [Hit Hi].
    specialize (IH Hi).
    assert (HL : forallb lineb (doc_lines items ++ tail) = true).
    { apply doc_lines_ok; [exact Hi|]. unfold tail_ok in Ht.
      now apply andb_prop in Ht. }
    unfold doc_lines. cbn [flat_map]. fold (doc_lines items).
    rewrite <- app_assoc. destruct it as [l|tag body]; cbn [item_lines app].
    + cbn [item_ok] in Hit. apply andb_prop in Hit as [Hl Ho].
      apply negb_true_iff in Ho. unfold is_open in Ho.
      change (rest_lines (l :: doc_lines items ++ tail))
        with (LF :: l ++ rest_lines (doc_lines items ++ tail)).
      rewrite hl_LF, hl_line_none, IH.
      * cbn [render item_out bind]. rewrite !fmap_fmap.
        destruct (render repl items); reflexivity.
      * rewrite fence_at_line by assumption.
        destruct (bol (LF :: b)); [|reflexivity].
        destruct (open_tag l); [discriminate|reflexivity].
      * exact Hl.
    + cbn [item_ok] in Hit. apply andb_prop in Hit as [Htag Hbody].
      replace ((body ++ [fence3]) ++ doc_lines items ++ tail)
        with (body ++ fence3 :: doc_lines items ++ tail)
        by (now rewrite <- app_assoc).
      change (rest_lines ((fence3 ++ tag) :: body ++ fence3 :: doc_lines items ++ tail))
        with (LF :: (fence3 ++ tag)
                 ++ rest_lines (body ++ fence3 :: doc_lines items ++ tail)).
      rewrite hl_LF, hl_fence by (reflexivity || assumption).
      rewrite IH. cbn [render item_out].
      destruct (repl (fence_match tag body)); [|reflexivity].
      destruct (render repl items); reflexivity.
Qed.

(** The matcher looks at the text before the cursor only to tell whether
    the cursor is at a line start. *)
Lemma hl_bol (a : text) :
  forall n b b', bol b = bol b' -> hl n b a = hl n b' a.
Proof.
  induction a as [|x a IH]; intros n b b' H.
  - destruct n; [|reflexivity]. now rewrite !hl_nil.
  - destruct n as [|n]; [|exact (IH n (x :: b) (x :: b') eq_refl)].
    cbn [sub_loop]. rewrite !match_at_fence.
    assert (Hf : fence_at b (x :: a) = fence_at b' (x :: a)).
    { unfold fence_at. now rewrite H. }
    rewrite Hf. destruct (fence_at b' (x :: a)) as [m|].
    + destruct (repl m); [|reflexivity]. cbn [bind].
      destruct (span_len m);
        now rewrite (IH _ (x :: b) (x :: b') eq_refl).
    + now rewrite (IH _ (x :: b) (x :: b') eq_refl).
Qed.

(** The same for a whole document, from its first character. *)
Theorem sub_items (items : list item) (tail : list text) :
  forallb item_ok items = true -> tail_ok tail = true ->
  sub CODE_FLAGS CODE_RE repl (join_lines (doc_lines items ++ tail)) =
  fmap (fun outs => join_lines (outs ++ tail)) (render repl items).
Proof.
  intros Hi Ht. unfold sub.
  destruct (doc_lines items ++ tail) as [|l ls] eqn:EL.
  - destruct items as [|it items].
    + cbn in EL. subst tail. cbn [join_lines]. now rewrite hl_nil.
    + destruct it; discriminate EL.
  - pose proof (hl_items items tail Hi Ht []) as H. rewrite EL in H.
    change (rest_lines (l :: ls)) with (LF :: join_lines (l :: ls)) in H.
    rewrite hl_LF in H.
    rewrite (hl_bol (join_lines (l :: ls)) 0 [] [LF] eq_refl).
    apply (f_equal (fmap (@tl ascii))) in H. rewrite !fmap_fmap in H.
    cbn [tl] in H. rewrite fmap_id in H. rewrite H.
    apply fmap_ext. intros outs. apply tl_rest_lines.
Qed.

End Repl.

End SubstFacts.

(** ** Facts about [search] and [sub] for any pattern *)

Module SubFacts.
Import PyRe.

Section Generic.

Variable fl : flags.
Variable r : regex.
Variable repl : Match -> result text.

(** Without a match anywhere, [sub] copies the text. *)
Lemma sub_loop_no_match (a : text) :
  forall b, search_from fl r b a = None -> sub_loop fl r repl 0 b a = Ok a.
Proof.
  induction a as [|x a IH]; intros b H; cbn [search_from] in H; cbn [sub_loop].
  - now destruct (match_at fl r b []).
  - destruct (match_at fl r b (x :: a)); [discriminate|].
    destruct (search_from fl r (x :: b) a) as [[i m]|] eqn:E; [discriminate|].
    now rewrite (IH _ E).
Qed.

End Generic.

(** A replacement function that always raises shows whether [sub] found
    a match: if the substitution still returns, there was none. *)
Lemma sub_loop_raise_search (fl : flags) (r : regex) (e : exc) (a : text) :
  forall b t,
    sub_loop fl r (fun _ => Raise e) 0 b a = Ok t -> search_from fl r b a = None.
Proof.
  induction a as [|x a IH]; intros b t H; cbn [sub_loop] in H; cbn [search_from].
  - now destruct (match_at fl r b []).
  - destruct (match_at fl r b (x :: a)); [discriminate|].
    destruct (sub_loop fl r (fun _ => Raise e) 0 (x :: b) a) as [t'|] eqn:E;
      [|discriminate].
    now rewrite (IH _ _ E).
Qed.

End SubFacts.

(** ** What every match looks like *)

Module FenceShape.
Import PyRe Md2zd Fence Lines FenceFacts LinesFacts.

Lemma closes_sound (acc a r : text) :
  closes acc a = Some r -> bol acc = true /\ a = fence3 ++ r /\ eol r = true.
Proof.
  unfold closes. destruct (bol acc); [|discriminate].
  destruct a as [|x1 [|x2 [|x3 a]]]; try discriminate.
  destruct (Ascii.eqb x1 BT) eqn:E1; [|discriminate].
  destruct (Ascii.eqb x2 BT) eqn:E2; [|discriminate].
  destruct (Ascii.eqb x3 BT) eqn:E3; [|discriminate].
  cbn [andb]. destruct (eol a) eqn:Ee; [|discriminate].
  intros [= <-]. apply Ascii.eqb_eq in E1, E2, E3. now subst.
Qed.

Lemma find_close_sound (a : text) :
  forall acc body rest,
    find_close acc a = Some (body, rest) ->
    exists mid,
      body = rev acc ++ mid /\ a = mid ++ fence3 ++ rest
      /\ bol (rev mid ++ acc) = true /\ eol rest = true.
Proof.
  induction a as [|x a IH]; intros acc body rest; cbn [find_close].
  - destruct (closes acc []) as [r|] eqn:Ec; [|discriminate].
    intros [= <- <-]. apply closes_sound in Ec as (Hb & Ha & He).
    exists []. now rewrite app_nil_r.
  - destruct (closes acc (x :: a)) as [r|] eqn:Ec.
    + intros [= <- <-]. apply closes_sound in Ec as (Hb & Ha & He).
      exists []. now rewrite app_nil_r.
    + intros H. apply IH in H as (mid & Hbody & Ha & Hb & He).
      exists (x :: mid). cbn [rev app] in *. rewrite <- !app_assoc in *.
      subst a. now repeat split.
Qed.

(** A match starts at a line start on an opening line and ends at the end
    of a closing line: the text at the cursor is three backticks, a
    lowercase tag, a body that begins and ends with a newline, three
    backticks, and then a line end. *)
Lemma fence_at_sound (b a : text) (m : Match) :
  fence_at b a = Some m ->
  bol b = true /\
  exists tag body rest,
    a = fence3 ++ tag ++ body ++ fence3 ++ rest
    /\ forallb lower tag = true
    /\ hd_error body = Some LF
    /\ bol (rev body) = true
    /\ eol rest = true
    /\ m = MkMatch (length (fence3 ++ tag ++ body ++ fence3)) [lang_of tag; Some body].
Proof.
  unfold fence_at. destruct (bol b); [|discriminate].
  destruct a as [|x1 [|x2 [|x3 a1]]]; try discriminate.
  destruct (Ascii.eqb x1 BT) eqn:E1; [|discriminate].
  destruct (Ascii.eqb x2 BT) eqn:E2; [|discriminate].
  destruct (Ascii.eqb x3 BT) eqn:E3; [|discriminate].
  cbn [andb]. apply Ascii.eqb_eq in E1, E2, E3. subst x1 x2 x3.
  destruct (drop_lower a1) as [|x a3] eqn:Ed; [discriminate|].
  destruct (Ascii.eqb x LF) eqn:Ex; [|discriminate].
  apply eqb_LF in Ex. subst x.
  destruct (find_close [LF] a3) as [[body rest]|] eqn:Ef; [|discriminate].
  intros [= <-]. split; [reflexivity|].
  apply find_close_sound in Ef as (mid & Hbody & Ha3 & Hb & He).
  exists (take_lower a1), body, rest. cbn [rev app] in Hbody.
  repeat split.
  - rewrite <- (take_drop_lower a1) at 1. rewrite Ed, Ha3, Hbody. reflexivity.
  - apply take_lower_all.
  - now rewrite Hbody.
  - rewrite Hbody. cbn [rev]. exact Hb.
  - exact He.
  - f_equal. unfold fence3. rewrite !length_app. cbn [length]. lia.
Qed.

End FenceShape.

(** ** Counting the blocks in the output text *)

Module CountFacts.
Import PyRe Md2zd Fence Lines Doc Blocks.

Lemma prefixb_sep (c : ascii) (y : text) (pat : text) :
  absent c pat = true ->
  forall x, prefixb pat (x ++ c :: y) = prefixb pat x.
Proof.
  induction pat as [|p pat IH]; intros Hc x; [reflexivity|].
  cbn [absent forallb] in Hc. apply andb_prop in Hc as [Hp Hc].
  apply negb_true_iff in Hp. destruct x as [|a x]; cbn [app prefixb].
  - now rewrite Hp.
  - now rewrite (IH Hc).
Qed.

Lemma occurrences_nil (p : ascii) (pat : text) : occurrences (p :: pat) [] = 0.
Proof. reflexivity. Qed.

Lemma occurrences_cons (pat : text) (a : ascii) (s : text) :
  occurrences pat (a :: s) =
  (if prefixb pat (a :: s) then 1 else 0) + occurrences pat s.
Proof. reflexivity. Qed.

(** A character that is not in the pattern separates the occurrences. *)
Lemma occurrences_sep (c : ascii) (p : ascii) (pat y : text) :
  absent c (p :: pat) = true ->
  forall x,
    occurrences (p :: pat) (x ++ c :: y) =
    occurrences (p :: pat) x + occurrences (p :: pat) y.
Proof.
  intros Hc. induction x as [|a x IH].
  - pose proof (prefixb_sep c y _ Hc []) as E. cbn [app] in *.
    rewrite occurrences_cons, E. reflexivity.
  - pose proof (prefixb_sep c y _ Hc (a :: x)) as E. cbn [app] in *.
    rewrite !occurrences_cons, IH, E. lia.
Qed.

(** No occurrence starts where the first character of the pattern is
    not. *)
Lemma occurrences_skip (p : ascii) (pat y : text) :
  forall x,
    absent p x = true ->
    occurrences (p :: pat) (x ++ y) = occurrences (p :: pat) y.
Proof.
  induction x as [|a x IH]; intros Hx; [reflexivity|].
  cbn [absent forallb] in Hx. apply andb_prop in Hx as [Ha Hx].
  apply negb_true_iff in Ha.
  cbn [app]. rewrite occurrences_cons. cbn [prefixb].
  rewrite (Ascii.eqb_sym p a), Ha. cbn [andb]. now rewrite (IH Hx).
Qed.

(** When the first character of the pattern occurs in it only once, no
    occurrence runs over a later copy of that character. *)
Lemma occurrences_head (p : ascii) (pat y : text) :
  absent p pat = true ->
  forall x,
    occurrences (p :: pat) (x ++ p :: y) =
    occurrences (p :: pat) x + occurrences (p :: pat) (p :: y).
Proof.
  intros Hp. induction x as [|a x IH]; [reflexivity|].
  cbn [app]. rewrite (occurrences_cons _ a (x ++ p :: y)), IH.
  rewrite (occurrences_cons _ a x).
  cbn [prefixb]. rewrite (prefixb_sep p y pat Hp x). lia.
Qed.

Lemma occurrences_line_rest (p : ascii) (pat l : text) (ls : list text) :
  absent LF (p :: pat) = true ->
  occurrences (p :: pat) (l ++ rest_lines ls) =
  occurrences (p :: pat) l + occurrences (p :: pat) (join_lines ls).
Proof.
  intros H. destruct ls as [|l' ls].
  - cbn [rest_lines flat_map join_lines]. rewrite app_nil_r, occurrences_nil. lia.
  - change (rest_lines (l' :: ls)) with (LF :: join_lines (l' :: ls)).
    now apply occurrences_sep.
Qed.

(** The occurrences in a document are those in its lines. *)
Lemma occurrences_join (p : ascii) (pat : text) (ls : list text) :
  absent LF (p :: pat) = true ->
  occurrences (p :: pat) (join_lines ls) =
  list_sum (map (occurrences (p :: pat)) ls).
Proof.
  intros H. induction ls as [|l ls IH]; [reflexivity|].
  cbn [join_lines map list_sum]. rewrite occurrences_line_rest by exact H.
  now rewrite IH.
Qed.

Lemma lower_not_lt (tag : text) :
  forallb lower tag = true -> absent "<" tag = true.
Proof.
  induction tag as [|x tag IH]; [reflexivity|]. cbn [forallb absent].
  intros H. apply andb_prop in H as [Hx H]. fold (absent "<" tag).
  rewrite (IH H), andb_true_r. apply negb_true_iff.
  destruct (Ascii.eqb x "<") eqn:E; [|reflexivity].
  apply Ascii.eqb_eq in E. subst x. discriminate Hx.
Qed.

(** A block holds its mark once: at its head. *)
Lemma occurrences_wrap (lang formatted : text) :
  absent "<" lang = true ->
  occurrences HIGHLIGHT_MARK formatted = 0 ->
  occurrences HIGHLIGHT_MARK (wrap lang formatted) = 1.
Proof.
  intros Hl Hf.
  change (wrap lang formatted)
    with ((T "<pre class=" ++ [DQ] ++ T "highlight" ++ [DQ] ++ T "><code class="
             ++ [DQ] ++ T "language")
            ++ "-"%char :: lang ++ [DQ; ">"%char] ++ formatted
            ++ "<"%char :: T "/code></pre>").
  change HIGHLIGHT_MARK with ("<"%char :: tl HIGHLIGHT_MARK) in *.
  rewrite occurrences_sep by reflexivity.
  rewrite (app_assoc lang).
  rewrite occurrences_skip with (x := lang ++ [DQ; ">"%char]).
  2:{ unfold absent in *. rewrite forallb_app, Hl. reflexivity. }
  rewrite occurrences_head with (x := formatted) by reflexivity.
  rewrite Hf. reflexivity.
Qed.

End CountFacts.

(** ** Properties of the program *)

Module Properties.
Import PyRe Md2zd Fence Lines Doc Blocks Samples.
Import FenceFacts LinesFacts SubstFacts SubFacts FenceShape CountFacts.

Section Claims.

Context {pygments : Pygments} {cmarkgfm : Cmark} {tidy : Tidy} {pathlib : Pathlib}.

Lemma resolve_lexer_ok (lang : option text) :
  only_ValueError ->
  resolve_lexer lang = Ok (lexer_of lang).
Proof.
  intros H. unfold resolve_lexer, lexer_of.
  destruct (get_lexer_by_name lang) as [lx|e] eqn:E; [reflexivity|].
  now rewrite (H _ _ E).
Qed.

Lemma codeblock_fence (tag : text) (body : list text) :
  only_ValueError ->
  md_codeblock (fence_match tag body) = Ok (fence_html tag body).
Proof.
  intros H. unfold md_codeblock, fence_match. cbn [groups].
  now rewrite (resolve_lexer_ok _ H).
Qed.

Lemma render_html (items : list item) :
  only_ValueError -> render md_codeblock items = Ok (map item_html items).
Proof.
  intros H. induction items as [|it items IH]; [reflexivity|].
  cbn [render map]. rewrite IH. destruct it as [l|tag body]; cbn [item_out item_html].
  - reflexivity.
  - now rewrite (codeblock_fence _ _ H).
Qed.

Lemma render_plain (repl : Match -> result text) (ls : list text) :
  render repl (map Plain ls) = Ok ls.
Proof.
  induction ls as [|l ls IH]; [reflexivity|]. cbn [map render item_out bind].
  now rewrite IH.
Qed.

Lemma doc_lines_plain (ls : list text) : doc_lines (map Plain ls) = ls.
Proof.
  induction ls as [|l ls IH]; [reflexivity|]. cbn [map doc_lines flat_map item_lines app].
  f_equal. exact IH.
Qed.

Lemma plain_ok (ls : list text) :
  forallb lineb ls = true -> forallb (fun l => negb (is_open l)) ls = true ->
  forallb item_ok (map Plain ls) = true.
Proof.
  induction ls as [|l ls IH]; [reflexivity|]. cbn [forallb map item_ok].
  intros H1 H2. apply andb_prop in H1 as [H1 H1']. apply andb_prop in H2 as [H2 H2'].
  now rewrite H1, H2, IH.
Qed.

(** Plain lines, then a tail without closing lines: nothing matches, with
    any replacement function. *)
Lemma sub_plain (repl : Match -> result text) (ls tail : list text) :
  forallb lineb ls = true -> forallb (fun l => negb (is_open l)) ls = true ->
  tail_ok tail = true ->
  sub CODE_FLAGS CODE_RE repl (join_lines (ls ++ tail)) = Ok (join_lines (ls ++ tail)).
Proof.
  intros H1 H2 H3.
  pose proof (sub_items repl (map Plain ls) tail (plain_ok ls H1 H2) H3) as H.
  rewrite doc_lines_plain, render_plain in H. exact H.
Qed.

Lemma search_plain (ls tail : list text) :
  forallb lineb ls = true -> forallb (fun l => negb (is_open l)) ls = true ->
  tail_ok tail = true ->
  search CODE_FLAGS CODE_RE (join_lines (ls ++ tail)) = None.
Proof.
  intros H1 H2 H3. unfold search.
  apply sub_loop_raise_search with (e := ValueError) (t := join_lines (ls ++ tail)).
  exact (sub_plain (fun _ => Raise ValueError) ls tail H1 H2 H3).
Qed.

Lemma wrappers_length (items : list item) : length (wrappers items) = fence_count items.
Proof.
  unfold wrappers, fence_count.
  induction items as [|it items IH]; [reflexivity|].
  cbn [flat_map filter]. destruct it; cbn [app length]; now rewrite IH.
Qed.

Lemma fence_lines_join (tag : text) (body rest : list text) :
  join_lines (item_lines (Fenced tag body) ++ rest) =
  (fence3 ++ tag) ++ rest_lines (body ++ fence3 :: rest).
Proof.
  cbn [item_lines app join_lines]. rewrite <- (app_assoc body). reflexivity.
Qed.

Lemma fence_ok_parts (tag : text) (body : list text) :
  item_ok (Fenced tag body) = true ->
  forallb lower tag = true
  /\ forallb lineb body = true
  /\ forallb (fun l => negb (is_close l)) body = true.
Proof.
  cbn [item_ok]. intros H. apply andb_prop in H as [Ht Hb]. split; [exact Ht|].
  induction body as [|l body IH]; [now split|]. cbn [forallb] in *.
  apply andb_prop in Hb as [Hl Hb]. apply andb_prop in Hl as [Hl1 Hl2].
  destruct (IH Hb) as [IH1 IH2]. now rewrite Hl1, Hl2, IH1, IH2.
Qed.

(** One match attempt at the opening line of a fence, whatever lines
    follow the fence. *)
Lemma match_at_fence_lines (b tag : text) (body rest : list text) :
  bol b = true -> item_ok (Fenced tag body) = true -> forallb lineb rest = true ->
  match_at CODE_FLAGS CODE_RE b (join_lines (item_lines (Fenced tag body) ++ rest)) =
  Some (MkMatch (length (join_lines (item_lines (Fenced tag body))))
                [lang_of tag; Some (code_of body)]).
Proof.
  intros Hb Hok Hrest. destruct (fence_ok_parts _ _ Hok) as (Ht & Hbl & Hbc).
  rewrite match_at_fence, fence_lines_join, fence_at_line.
  - rewrite Hb. cbn [fence3 app open_tag]. rewrite Ht.
    change (Ascii.eqb BT BT) with true. cbn [andb].
    rewrite (split_close_first _ _ Hbc). f_equal. f_equal.
    rewrite <- (app_nil_r (item_lines (Fenced tag body))).
    rewrite fence_lines_join, fence_span. cbn [rest_lines flat_map].
    rewrite app_nil_r. unfold fence3. rewrite !length_app. cbn [length]. lia.
  - exact (lower_line tag Ht).
  - rewrite forallb_app, Hbl. cbn [forallb andb]. exact Hrest.
Qed.

Lemma mark_free_zero (s : text) : mark_free s = true -> occurrences HIGHLIGHT_MARK s = 0.
Proof. unfold mark_free. apply Nat.eqb_eq. Qed.

Lemma format_lang_no_lt (tag : text) :
  forallb lower tag = true -> absent "<" (format_lang (lang_of tag)) = true.
Proof.
  intros H. destruct tag as [|x tag]; [reflexivity|].
  cbn [lang_of format_lang]. now apply lower_not_lt.
Qed.

(** The mark occurs once for each fence in the rendered lines, when the
    plain lines and the highlighted code do not hold it themselves. *)
Lemma occurrences_items (items : list item) :
  forallb item_ok items = true ->
  forallb item_clean items = true ->
  list_sum (map (occurrences HIGHLIGHT_MARK) (map item_html items)) = fence_count items.
Proof.
  unfold fence_count. induction items as [|it items IH]; [reflexivity|].
  cbn [forallb]. intros Hok Hcl.
  apply andb_prop in Hok as [Hit Hok]. apply andb_prop in Hcl as [Hc Hcl].
  cbn [map filter].
  change (list_sum (?a :: ?l)) with (a + list_sum l). rewrite (IH Hok Hcl).
  destruct it as [l|tag body]; cbn [item_html item_clean] in *.
  - now rewrite (mark_free_zero _ Hc).
  - cbn [item_ok] in Hit. apply andb_prop in Hit as [Ht _].
    unfold fence_html. rewrite occurrences_wrap.
    + reflexivity.
    + now apply format_lang_no_lt.
    + now apply mark_free_zero.
Qed.

(** C1.  A document made of N well-formed fences among plain lines: the
    output is the document with each fence replaced by one highlighted
    block, in order, and every plain line kept as it is; there are N blocks,
    each of the wrapper form.  When neither the plain lines nor the
    highlighted code hold the text of the opening tag of a block, that
    text occurs exactly N times in the output. *)
Theorem fence_count_preserved (items : list item) (N : nat) :
  only_ValueError ->
  forallb item_ok items = true ->
  fence_count items = N ->
  md_highlight (join_lines (doc_lines items)) = Ok (join_lines (map item_html items))
  /\ length (wrappers items) = N
  /\ Forall (fun w => exists lang formatted, w = wrap lang formatted) (wrappers items)
  /\ (forallb item_clean items = true ->
      occurrences HIGHLIGHT_MARK (join_lines (map item_html items)) = N).
Proof.
  intros Hlex Hok HN. repeat split.
  - pose proof (sub_items md_codeblock items [] Hok eq_refl) as H.
    rewrite (render_html _ Hlex), app_nil_r in H. cbn [fmap bind] in H.
    rewrite app_nil_r in H. exact H.
  - now rewrite wrappers_length.
  - unfold wrappers. apply Forall_flat_map, Forall_forall. intros [l|tag body] _.
    + constructor.
    + repeat constructor. unfold fence_html. eauto.
  - intros Hcl. change HIGHLIGHT_MARK with ("<"%char :: tl HIGHLIGHT_MARK).
    rewrite occurrences_join by reflexivity.
    change ("<"%char :: tl HIGHLIGHT_MARK) with HIGHLIGHT_MARK.
    now rewrite occurrences_items.
Qed.

(** C2.  What [md_codeblock] emits for the tag python and for a fence
    without tag.  A fence without tag reaches it with [None] as first
    group, as the match of the three-line document shows, and the class
    written is language-None, not the empty suffix. *)
Theorem codeblock_language_class (n : nat) (code : text) :
  md_codeblock (MkMatch n [Some (T "python"); Some code]) =
    (lexer <- resolve_lexer (Some (T "python")) ;;
     Ok (wrap (T "python") (highlight code lexer FORMATTER)))
  /\ match_at CODE_FLAGS CODE_RE [] (join_lines [fence3; T "x"; fence3]) =
       Some (MkMatch 9 [None; Some (code_of [T "x"])])
  /\ md_codeblock (MkMatch n [None; Some code]) =
       (lexer <- resolve_lexer None ;;
        Ok (wrap (T "None") (highlight code lexer FORMATTER)))
  /\ forall formatted, wrap (T "None") formatted <> wrap [] formatted.
Proof.
  repeat split.
  intros formatted H. unfold wrap in H. cbn in H. discriminate H.
Qed.

(** C4.  A tag the highlighter does not know: the lookup raises
    [ValueError], [md_codeblock] catches it and returns, without raising,
    the block whose outer element has class highlight and whose code
    element has class language- followed by the tag, around the body
    highlighted with the plain-text lexer; so does [md_highlight] on a
    fence with that tag.  The text of the block is written out. *)
Theorem unknown_language_fallback (tag code : text) (body : list text) (n : nat) :
  get_lexer_by_name (Some tag) = Raise ValueError ->
  tag <> [] ->
  item_ok (Fenced tag body) = true ->
  md_codeblock (MkMatch n [Some tag; Some code]) =
    Ok (T "<pre class=" ++ [DQ] ++ T "highlight" ++ [DQ] ++ T "><code class=" ++ [DQ]
          ++ T "language-" ++ tag ++ [DQ] ++ T ">"
          ++ highlight code TextLexer FORMATTER ++ T "</code></pre>")
  /\ md_highlight (join_lines (item_lines (Fenced tag body))) =
       Ok (T "<pre class=" ++ [DQ] ++ T "highlight" ++ [DQ] ++ T "><code class=" ++ [DQ]
             ++ T "language-" ++ tag ++ [DQ] ++ T ">"
             ++ highlight (code_of body) TextLexer FORMATTER ++ T "</code></pre>").
Proof.
  intros Hl Hne Hok.
  assert (Hc : forall k c,
             md_codeblock (MkMatch k [Some tag; Some c]) =
             Ok (T "<pre class=" ++ [DQ] ++ T "highlight" ++ [DQ] ++ T "><code class="
                   ++ [DQ] ++ T "language-" ++ tag ++ [DQ] ++ T ">"
                   ++ highlight c TextLexer FORMATTER ++ T "</code></pre>")).
  { intros k c. unfold md_codeblock, resolve_lexer. cbn [groups]. rewrite Hl.
    reflexivity. }
  split; [apply Hc|].
  pose proof (sub_items md_codeblock [Fenced tag body] []) as H.
  cbn [forallb] in H. rewrite Hok in H. specialize (H eq_refl eq_refl).
  cbn [render item_out] in H. unfold fence_match in H.
  assert (Hlang : lang_of tag = Some tag) by (destruct tag; [contradiction|reflexivity]).
  rewrite Hlang, Hc in H. unfold fmap in H. cbn [bind app join_lines rest_lines flat_map] in H.
  rewrite !app_nil_r in H. unfold doc_lines in H. cbn [flat_map] in H.
  rewrite app_nil_r in H. exact H.
Qed.

(** C5.  The program reads the file, highlights the fences, renders the
    result with cmark under [CMARK_FLAGS], tidies that, and prints it: the
    three stages in this order, each on the whole output of the one
    before. *)
Theorem pipeline_order (filepath : Path) :
  md2kb filepath =
    (md <- read_text filepath ;;
     hl <- md_highlight md ;;
     Ok [tidy_html (md_parse hl)])
  /\ (forall hl, md_parse hl = markdown_to_html hl CMARK_FLAGS)
  /\ (forall html, tidy_html html =
                   str_of_doc (parseString html TIDY_OPTIONS)).
Proof.
  repeat split. unfold md2kb, md_highlight_and_parse.
  destruct (read_text filepath) as [md|e]; [|reflexivity]. cbn [bind].
  now destruct (md_highlight md).
Qed.

(** C6.  When the pattern matches nowhere in the document, the output is
    the input. *)
Theorem no_fence_identity (md : text) :
  search CODE_FLAGS CODE_RE md = None ->
  md_highlight md = Ok md.
Proof.
  intros H. unfold md_highlight, sub. now apply sub_loop_no_match.
Qed.

(** C3.  The body is matched lazily: at the opening line of a fence the
    match ends with the first closing line after it, whatever follows
    (further closing lines included); and two fences with plain lines
    between them become two blocks, the lines between them kept. *)
Theorem first_close_ends_block
        (b tagA : text) (bodyA rest between : list text) (tagB : text) (bodyB : list text) :
  only_ValueError ->
  bol b = true ->
  item_ok (Fenced tagA bodyA) = true ->
  item_ok (Fenced tagB bodyB) = true ->
  forallb lineb rest = true ->
  forallb lineb between = true ->
  forallb (fun l => negb (is_open l)) between = true ->
  match_at CODE_FLAGS CODE_RE b (join_lines (item_lines (Fenced tagA bodyA) ++ rest)) =
    Some (MkMatch (length (join_lines (item_lines (Fenced tagA bodyA))))
                  [lang_of tagA; Some (code_of bodyA)])
  /\ md_highlight (join_lines (item_lines (Fenced tagA bodyA) ++ between
                               ++ item_lines (Fenced tagB bodyB))) =
       Ok (join_lines (fence_html tagA bodyA :: between ++ [fence_html tagB bodyB])).
Proof.
  intros Hlex Hb HA HB Hrest Hl Ho. split.
  - now apply match_at_fence_lines.
  - pose proof (sub_items md_codeblock
                          (Fenced tagA bodyA :: map Plain between ++ [Fenced tagB bodyB])
                          []) as H.
    rewrite (render_html _ Hlex) in H.
    cbn [forallb] in H. rewrite forallb_app, HA, (plain_ok _ Hl Ho) in H.
    cbn [forallb] in H. rewrite HB in H. specialize (H eq_refl eq_refl).
    cbn [fmap bind] in H. rewrite !app_nil_r in H.
    unfold doc_lines in H. cbn [flat_map] in H. rewrite flat_map_app in H.
    fold (doc_lines (map Plain between)) in H. rewrite doc_lines_plain in H.
    cbn [flat_map] in H. rewrite app_nil_r in H.
    cbn [map item_html] in H. rewrite map_app, map_map in H.
    cbn [map item_html] in H. rewrite map_id in H. exact H.
Qed.

(** C7.  Delimiters are whole lines.  Every match starts at a line start
    with three backticks and a lowercase tag that run to the end of their
    line, and ends with three backticks that start a line and end it.  A
    document in which no line is three backticks followed by lowercase
    letters only (every triple backtick sits inside a line) has no match
    and is returned as it is. *)
Theorem delimiters_are_full_lines :
  (forall (b a : text) (m : Match),
      match_at CODE_FLAGS CODE_RE b a = Some m ->
      bol b = true /\
      exists tag body rest,
        a = fence3 ++ tag ++ body ++ fence3 ++ rest
        /\ forallb lower tag = true
        /\ hd_error body = Some LF
        /\ bol (rev body) = true
        /\ eol rest = true
        /\ m = MkMatch (length (fence3 ++ tag ++ body ++ fence3)) [lang_of tag; Some body])
  /\ (forall lines : list text,
         forallb lineb lines = true ->
         forallb (fun l => negb (is_open l)) lines = true ->
         search CODE_FLAGS CODE_RE (join_lines lines) = None
         /\ md_highlight (join_lines lines) = Ok (join_lines lines)).
Proof.
  split.
  - intros b a m H. rewrite match_at_fence in H. now apply fence_at_sound.
  - intros lines Hl Ho. split.
    + pose proof (search_plain lines [] Hl Ho eq_refl) as H.
      now rewrite app_nil_r in H.
    + pose proof (sub_plain md_codeblock lines [] Hl Ho eq_refl) as H.
      now rewrite app_nil_r in H.
Qed.

(** C8.  [CMARK_FLAGS] is the raw-HTML flag or-ed with the smart
    punctuation flag, bits 17 and 10 and no other, and it is what
    [md_parse] hands to the renderer. *)
Theorem cmark_flags_bits :
  CMARK_FLAGS = 132096%Z
  /\ UNSAFE = 131072%Z
  /\ SMART = 1024%Z
  /\ CMARK_FLAGS = Z.lor UNSAFE SMART
  /\ (forall i : Z, Z.testbit CMARK_FLAGS i = true <-> i = 17 \/ i = 10)%Z
  /\ (forall md, md_parse md = markdown_to_html md 132096%Z).
Proof.
  repeat split; try reflexivity.
  - intros H.
    destruct (Z.ltb_spec i 0) as [Hneg|Hpos].
    { rewrite Z.testbit_neg_r in H by exact Hneg. discriminate H. }
    destruct (Z.ltb_spec i 18) as [Hlt|Hge].
    + assert (Hi : (i = 0 \/ i = 1 \/ i = 2 \/ i = 3 \/ i = 4 \/ i = 5 \/ i = 6
                    \/ i = 7 \/ i = 8 \/ i = 9 \/ i = 10 \/ i = 11 \/ i = 12
                    \/ i = 13 \/ i = 14 \/ i = 15 \/ i = 16 \/ i = 17)%Z) by lia.
      repeat (destruct Hi as [Hi|Hi];
              [subst i; first [discriminate H | now left | now right]|]).
      subst i. now left.
    + rewrite Z.bits_above_log2 in H; [discriminate H|unfold CMARK_FLAGS; lia|].
      change (Z.log2 CMARK_FLAGS) with 17%Z. lia.
  - intros [-> | ->]; reflexivity.
Qed.

(** C9, as the code has it.  An opening line with no closing line after it
    stays as it is, with everything after it; the complete fences before it
    are still replaced.  When only plain lines come before it, the input is
    returned unchanged. *)
Theorem unterminated_fence_left
        (items : list item) (pre : list text) (open : text) (rest : list text) :
  only_ValueError ->
  forallb item_ok items = true ->
  forallb lineb pre = true ->
  forallb (fun l => negb (is_open l)) pre = true ->
  is_open open = true ->
  forallb lineb (open :: rest) = true ->
  forallb (fun l => negb (is_close l)) rest = true ->
  md_highlight (join_lines (doc_lines items ++ open :: rest)) =
    Ok (join_lines (map item_html items ++ open :: rest))
  /\ md_highlight (join_lines (pre ++ open :: rest)) =
       Ok (join_lines (pre ++ open :: rest)).
Proof.
  intros Hlex Hok Hpl Hpo _ Hl Hc.
  assert (Ht : tail_ok (open :: rest) = true).
  { unfold tail_ok. cbn [tl]. now rewrite Hl, Hc. }
  split.
  - pose proof (sub_items md_codeblock items (open :: rest) Hok Ht) as H.
    rewrite (render_html _ Hlex) in H. exact H.
  - exact (sub_plain md_codeblock pre (open :: rest) Hpl Hpo Ht).
Qed.

Lemma crlf_doc_lines (ls : list text) :
  crlf_doc ls = join_lines (map (fun l => l ++ [CR]) ls ++ [[]]).
Proof.
  induction ls as [|l ls IH]; [reflexivity|].
  unfold crlf_doc in *. cbn [flat_map map app join_lines]. rewrite IH.
  rewrite <- !app_assoc. f_equal. cbn [app]. f_equal.
  now destruct (map (fun l0 => l0 ++ [CR]) ls).
Qed.

Lemma is_open_CR (l : text) : is_open (l ++ [CR]) = false.
Proof.
  unfold is_open, open_tag.
  destruct l as [|x1 [|x2 [|x3 t]]]; cbn [app]; try reflexivity.
  - destruct (Ascii.eqb x1 BT); [|reflexivity]. now destruct (Ascii.eqb x2 BT).
  - rewrite forallb_app. cbn [forallb]. change (lower CR) with false.
    now rewrite !andb_false_r.
Qed.

(** C10.  In a document whose lines all end with carriage return and line
    feed, the pattern matches nowhere and the document is returned as it
    is. *)
Theorem crlf_document_unchanged (ls : list text) :
  forallb lineb ls = true ->
  search CODE_FLAGS CODE_RE (crlf_doc ls) = None
  /\ md_highlight (crlf_doc ls) = Ok (crlf_doc ls).
Proof.
  intros Hl. rewrite crlf_doc_lines.
  assert (H1 : forallb lineb (map (fun l => l ++ [CR]) ls) = true).
  { clear - Hl. induction ls as [|l ls IH]; [reflexivity|]. cbn [map forallb] in *.
    apply andb_prop in Hl as [Hl1 Hl2]. rewrite (IH Hl2).
    unfold lineb in *. rewrite forallb_app, Hl1. reflexivity. }
  assert (H2 : forallb (fun l => negb (is_open l)) (map (fun l => l ++ [CR]) ls) = true).
  { clear. induction ls as [|l ls IH]; [reflexivity|]. cbn [map forallb].
    now rewrite is_open_CR, IH. }
  split.
  - exact (search_plain _ [[]] H1 H2 eq_refl).
  - exact (sub_plain md_codeblock _ [[]] H1 H2 eq_refl).
Qed.

End Claims.

(** *** The properties at concrete documents, with the registry [Toy] *)

Lemma toy_only_ValueError (lang : option text) (e : exc) :
  Toy.lookup lang = Raise e -> e = ValueError.
Proof.
  destruct lang as [name|]; cbn [Toy.lookup].
  - destruct (Toy.text_eqb name (T "python")); [discriminate|]. now intros [= <-].
  - now intros [= <-].
Qed.

Lemma fence_count_preserved_witness :
  (@only_ValueError Toy.pygments
   /\ forallb item_ok sample_doc = true
   /\ fence_count sample_doc = 2)
  /\ Toy.md_highlight (join_lines (doc_lines sample_doc)) =
       Ok (join_lines (map toy_html sample_doc))
  /\ length (@wrappers Toy.pygments sample_doc) = 2
  /\ Forall (fun w => exists lang formatted, w = wrap lang formatted)
            (@wrappers Toy.pygments sample_doc)
  /\ occurrences HIGHLIGHT_MARK (join_lines (map toy_html sample_doc)) = 2.
Proof.
  split.
  - split; [exact toy_only_ValueError | split; reflexivity].
  - destruct (@fence_count_preserved Toy.pygments sample_doc 2 toy_only_ValueError
                                     eq_refl eq_refl) as (H1 & H2 & H3 & H4).
    exact (conj H1 (conj H2 (conj H3 (H4 eq_refl)))).
Defined.

Lemma first_close_ends_block_witness :
  (@only_ValueError Toy.pygments
   /\ bol [] = true
   /\ item_ok (Fenced (T "python") [T "a"]) = true
   /\ item_ok (Fenced [] [T "b"]) = true
   /\ forallb lineb [T "after"; fence3] = true
   /\ forallb lineb [T "between"] = true
   /\ forallb (fun l => negb (is_open l)) [T "between"] = true)
  /\ match_at CODE_FLAGS CODE_RE []
       (join_lines (item_lines (Fenced (T "python") [T "a"]) ++ [T "after"; fence3])) =
       Some (MkMatch (length (join_lines (item_lines (Fenced (T "python") [T "a"]))))
                     [lang_of (T "python"); Some (code_of [T "a"])])
  /\ Toy.md_highlight
       (join_lines (item_lines (Fenced (T "python") [T "a"]) ++ [T "between"]
                    ++ item_lines (Fenced [] [T "b"]))) =
       Ok (join_lines (toy_html (Fenced (T "python") [T "a"])
                       :: [T "between"] ++ [toy_html (Fenced [] [T "b"])])).
Proof.
  split.
  - split; [exact toy_only_ValueError | repeat split].
  - apply (@first_close_ends_block Toy.pygments
                                   [] (T "python") [T "a"] [T "after"; fence3]
                                   [T "between"] [] [T "b"] toy_only_ValueError);
      reflexivity.
Defined.

Lemma unknown_language_fallback_witness :
  (Toy.lookup (Some (T "zzzzz")) = Raise ValueError
   /\ T "zzzzz" <> []
   /\ item_ok (Fenced (T "zzzzz") [T "x"]) = true)
  /\ md_codeblock (pygments := Toy.pygments)
       (MkMatch 0 [Some (T "zzzzz"); Some (T "x")]) =
       Ok (T "<pre class=" ++ [DQ] ++ T "highlight" ++ [DQ] ++ T "><code class=" ++ [DQ]
             ++ T "language-zzzzz" ++ [DQ] ++ T ">x</code></pre>")
  /\ Toy.md_highlight (join_lines [T "```zzzzz"; T "x"; T "```"]) =
       Ok (T "<pre class=" ++ [DQ] ++ T "highlight" ++ [DQ] ++ T "><code class=" ++ [DQ]
             ++ T "language-zzzzz" ++ [DQ] ++ T ">" ++ [LF] ++ T "x" ++ [LF]
             ++ T "</code></pre>").
Proof.
  split.
  - split; [reflexivity | split; [discriminate | reflexivity]].
  - apply (@unknown_language_fallback Toy.pygments
                                      (T "zzzzz") (T "x") [T "x"] 0);
      [reflexivity | discriminate | reflexivity].
Defined.

Lemma no_fence_identity_witness :
  search CODE_FLAGS CODE_RE (join_lines midline_doc) = None
  /\ Toy.md_highlight (join_lines midline_doc) = Ok (join_lines midline_doc).
Proof.
  split.
  - vm_compute. reflexivity.
  - apply (no_fence_identity (pygments := Toy.pygments)).
    vm_compute. reflexivity.
Defined.

Lemma delimiters_are_full_lines_witness :
  (match_at CODE_FLAGS CODE_RE [] (join_lines [fence3; fence3]) =
     Some (MkMatch 7 [None; Some [LF]])
   /\ forallb lineb midline_doc = true
   /\ forallb (fun l => negb (is_open l)) midline_doc = true)
  /\ (bol [] = true /\
      exists tag body rest,
        join_lines [fence3; fence3] = fence3 ++ tag ++ body ++ fence3 ++ rest
        /\ forallb lower tag = true
        /\ hd_error body = Some LF
        /\ bol (rev body) = true
        /\ eol rest = true
        /\ MkMatch 7 [None; Some [LF]] =
           MkMatch (length (fence3 ++ tag ++ body ++ fence3)) [lang_of tag; Some body])
  /\ search CODE_FLAGS CODE_RE (join_lines midline_doc) = None
  /\ Toy.md_highlight (join_lines midline_doc) = Ok (join_lines midline_doc).
Proof.
  split; [repeat split|]. split.
  - apply (proj1 (delimiters_are_full_lines (pygments := Toy.pygments))).
    reflexivity.
  - apply (proj2 (delimiters_are_full_lines (pygments := Toy.pygments)));
      reflexivity.
Defined.

(** C9 as stated fails: the last opening line of [unterminated_doc] has no
    closing line after it, and the output differs from the input, because
    the complete fence before it is replaced. *)
Lemma unterminated_fence_counterexample :
  (unterminated_doc = [T "```python"; T "x"; fence3; []] ++ T "```python" :: [T "y"]
   /\ is_open (T "```python") = true
   /\ forallb (fun l => negb (is_close l)) [T "y"] = true)
  /\ Toy.md_highlight (join_lines unterminated_doc) <> Ok (join_lines unterminated_doc).
Proof.
  split; [repeat split|].
  intros H. vm_compute in H. discriminate H.
Qed.

Lemma unterminated_fence_left_witness :
  (@only_ValueError Toy.pygments
   /\ forallb item_ok [Fenced (T "python") [T "x"]; Plain []] = true
   /\ forallb lineb [T "# Title"; []] = true
   /\ forallb (fun l => negb (is_open l)) [T "# Title"; []] = true
   /\ is_open (T "```python") = true
   /\ forallb lineb [T "```python"; T "y"] = true
   /\ forallb (fun l => negb (is_close l)) [T "y"] = true)
  /\ Toy.md_highlight (join_lines unterminated_doc) =
       Ok (join_lines [toy_html (Fenced (T "python") [T "x"]); []; T "```python"; T "y"])
  /\ Toy.md_highlight (join_lines [T "# Title"; []; T "```python"; T "y"]) =
       Ok (join_lines [T "# Title"; []; T "```python"; T "y"]).
Proof.
  split.
  - split; [exact toy_only_ValueError | repeat split].
  - apply (@unterminated_fence_left Toy.pygments
                                    [Fenced (T "python") [T "x"]; Plain []]
                                    [T "# Title"; []]
                                    (T "```python") [T "y"] toy_only_ValueError);
      reflexivity.
Defined.

Lemma crlf_document_unchanged_witness :
  forallb lineb [T "```python"; T "x = 1"; fence3] = true
  /\ search CODE_FLAGS CODE_RE (crlf_doc [T "```python"; T "x = 1"; fence3]) = None
  /\ Toy.md_highlight (crlf_doc [T "```python"; T "x = 1"; fence3]) =
       Ok (crlf_doc [T "```python"; T "x = 1"; fence3]).
Proof.
  split; [reflexivity|].
  apply (crlf_document_unchanged (pygments := Toy.pygments)).
  reflexivity.
Defined.

(** The scenario of the specification, up to the renderer: the title and
    the text are kept, the python fence becomes one block. *)
Example end_to_end_fence :
  Toy.md_highlight
    (join_lines [T "# Title"; []; T "```python"; T "print(hi)"; fence3; [];
                 T "Some --text--."]) =
  Ok (join_lines
        [T "# Title"; [];
         T "<pre class=" ++ [DQ] ++ T "highlight" ++ [DQ] ++ T "><code class=" ++ [DQ]
           ++ T "language-python" ++ [DQ] ++ T "><py>" ++ [LF] ++ T "print(hi)" ++ [LF]
           ++ T "</py></code></pre>";
         []; T "Some --text--."]).
Proof. vm_compute. reflexivity. Qed.

(** A fence without tag, run through the whole substitution. *)
Example no_tag_fence_class :
  Toy.md_highlight (join_lines [fence3; T "x"; fence3]) =
  Ok (T "<pre class=" ++ [DQ] ++ T "highlight" ++ [DQ] ++ T "><code class=" ++ [DQ]
        ++ T "language-None" ++ [DQ] ++ T ">" ++ [LF] ++ T "x" ++ [LF]
        ++ T "</code></pre>").
Proof. vm_compute. reflexivity. Qed.

End Properties.

(** ** The substitution as one pass over the lines: proofs *)

Module ScannerFacts.
Import PyRe Md2zd Fence Lines Doc Blocks Scanner.
Import FenceFacts LinesFacts SubstFacts.

Lemma split_lines_cons (c : ascii) (s : text) :
  split_lines (c :: s) =
  if Ascii.eqb c LF then [] :: split_lines s
  else
    match split_lines s with
    | l :: ls => (c :: l) :: ls
    | [] => [[c]]
    end.
Proof. reflexivity. Qed.

Lemma split_lines_nonempty (s : text) : split_lines s <> [].
Proof.
  destruct s as [|c s]; [discriminate|]. rewrite split_lines_cons.
  destruct (Ascii.eqb c LF); [discriminate|]. now destruct (split_lines s).
Qed.

(** Splitting a text into lines and joining them gives the text back. *)
Lemma join_split_lines (s : text) : join_lines (split_lines s) = s.
Proof.
  induction s as [|c s IH]; [reflexivity|]. rewrite split_lines_cons.
  destruct (Ascii.eqb c LF) eqn:E.
  - apply eqb_LF in E. subst c.
    pose proof (split_lines_nonempty s) as Hne.
    destruct (split_lines s) as [|l ls]; [contradiction|].
    cbn [join_lines app rest_lines flat_map] in *. fold (rest_lines ls). now rewrite IH.
  - pose proof (split_lines_nonempty s) as Hne.
    destruct (split_lines s) as [|l ls]; [contradiction|].
    cbn [join_lines app] in *. now rewrite IH.
Qed.

Lemma split_lines_lineb (s : text) : forallb lineb (split_lines s) = true.
Proof.
  induction s as [|c s IH]; [reflexivity|]. rewrite split_lines_cons.
  destruct (Ascii.eqb c LF) eqn:E.
  - cbn [forallb]. exact IH.
  - destruct (split_lines s) as [|l ls]; cbn [forallb] in *.
    + unfold lineb. cbn [forallb]. now rewrite E.
    + apply andb_prop in IH as [Hl Hls]. rewrite Hls, andb_true_r.
      unfold lineb in *. cbn [forallb]. now rewrite E, Hl.
Qed.

Lemma open_tag_eq (l tag : text) :
  open_tag l = Some tag -> l = fence3 ++ tag /\ forallb lower tag = true.
Proof.
  unfold open_tag. destruct l as [|x1 [|x2 [|x3 t]]]; try discriminate.
  destruct (Ascii.eqb x1 BT) eqn:E1; [|discriminate].
  destruct (Ascii.eqb x2 BT) eqn:E2; [|discriminate].
  destruct (Ascii.eqb x3 BT) eqn:E3; [|discriminate].
  cbn [andb]. destruct (forallb lower t) eqn:Et; [|discriminate].
  intros [= <-]. apply Ascii.eqb_eq in E1, E2, E3. now subst.
Qed.

Lemma split_close_body (ls body rest : list text) :
  split_close ls = Some (body, rest) ->
  forallb (fun l => negb (is_close l)) body = true /\ length rest < length ls.
Proof.
  revert body rest. induction ls as [|l ls IH]; intros body rest; [discriminate|].
  rewrite split_close_cons. destruct (is_close l) eqn:Ec.
  - intros [= <- <-]. split; [reflexivity|]. cbn [length]. lia.
  - destruct (split_close ls) as [[body' rest']|]; [|discriminate].
    intros [= <- <-]. destruct (IH _ _ eq_refl) as [H1 H2].
    cbn [forallb length]. rewrite Ec, H1. split; [reflexivity|lia].
Qed.

Lemma split_close_none_inv (ls : list text) :
  split_close ls = None -> forallb (fun l => negb (is_close l)) ls = true.
Proof.
  induction ls as [|l ls IH]; [reflexivity|]. rewrite split_close_cons.
  destruct (is_close l) eqn:Ec; [discriminate|].
  destruct (split_close ls) as [[body rest]|]; [discriminate|].
  intros _. cbn [forallb]. now rewrite Ec, IH.
Qed.

Lemma forallb_and (A : Type) (P Q : A -> bool) (l : list A) :
  forallb P l = true -> forallb Q l = true ->
  forallb (fun x => P x && Q x) l = true.
Proof.
  induction l as [|a l IH]; [reflexivity|]. cbn [forallb]. intros HP HQ.
  apply andb_prop in HP as [Ha HP]. apply andb_prop in HQ as [Hb HQ].
  now rewrite Ha, Hb, IH.
Qed.

(** Every list of lines is a sequence of plain lines and complete fences,
    followed by lines among which no fence can close. *)
Lemma lines_decompose (n : nat) :
  forall ls,
    length ls <= n -> forallb lineb ls = true ->
    exists items tail,
      ls = doc_lines items ++ tail
      /\ forallb item_ok items = true
      /\ tail_ok tail = true.
Proof.
  induction n as [|n IH]; intros ls Hn Hl.
  - destruct ls; [|cbn in Hn; lia]. exists [], []. now repeat split.
  - destruct ls as [|l ls]; [exists [], []; now repeat split|].
    cbn [length] in Hn. cbn [forallb] in Hl. apply andb_prop in Hl as [Hl0 Hl].
    destruct (open_tag l) as [tag|] eqn:Eo.
    + destruct (split_close ls) as [[body rest]|] eqn:Es.
      * pose proof (split_close_app _ Es) as Happ.
        destruct (split_close_body _ Es) as [Hbc Hlen].
        destruct (open_tag_eq _ Eo) as [-> Htag].
        assert (Hparts : forallb lineb body = true /\ forallb lineb rest = true).
        { rewrite Happ, forallb_app in Hl. cbn [forallb] in Hl.
          apply andb_prop in Hl as [H1 H2]. apply andb_prop in H2 as [_ H2]. now split. }
        destruct Hparts as [Hbl Hrl].
        destruct (IH rest ltac:(lia) Hrl) as (items & tail & E & Hok & Ht).
        exists (Fenced tag body :: items), tail. repeat split.
        -- unfold doc_lines. cbn [flat_map item_lines]. fold (doc_lines items).
           rewrite Happ, E. cbn [app]. now rewrite <- !app_assoc.
        -- cbn [forallb item_ok]. rewrite Htag, Hok, (forallb_and _ _ _ Hbl Hbc).
           reflexivity.
        -- exact Ht.
      * exists [], (l :: ls). repeat split. unfold tail_ok. cbn [forallb tl].
        now rewrite Hl0, Hl, (split_close_none_inv _ Es).
    + destruct (IH ls ltac:(lia) Hl) as (items & tail & E & Hok & Ht).
      exists (Plain l :: items), tail. repeat split.
      * unfold doc_lines. cbn [flat_map item_lines app]. fold (doc_lines items).
        now rewrite E.
      * cbn [forallb item_ok]. unfold is_open. now rewrite Eo, Hl0, Hok.
      * exact Ht.
Qed.

Section Repl.

Variable repl : Match -> result text.

(** Without a closing line the scanner copies what it reads. *)
Lemma scan_noclose (ls : list text) :
  forallb (fun l => negb (is_close l)) ls = true ->
  forall st,
    scan repl st ls =
    Ok match st with
       | None => ls
       | Some (tag, acc) => (fence3 ++ tag) :: rev acc ++ ls
       end.
Proof.
  induction ls as [|l ls IH]; intros Hc st.
  - destruct st as [[tag acc]|]; cbn [scan]; [now rewrite app_nil_r | reflexivity].
  - cbn [forallb] in Hc. apply andb_prop in Hc as [Hl Hc]. apply negb_true_iff in Hl.
    destruct st as [[tag acc]|]; cbn [scan].
    + rewrite Hl, (IH Hc). cbn [rev]. now rewrite <- app_assoc.
    + destruct (open_tag l) as [tag|] eqn:Eo.
      * rewrite (IH Hc). destruct (open_tag_eq _ Eo) as [-> _]. reflexivity.
      * now rewrite (IH Hc).
Qed.

Lemma scan_tail (tail : list text) :
  tail_ok tail = true -> scan repl None tail = Ok tail.
Proof.
  unfold tail_ok. intros H. apply andb_prop in H as [_ Hc].
  destruct tail as [|t0 rest]; [reflexivity|]. cbn [tl] in Hc. cbn [scan].
  destruct (open_tag t0) as [tag|] eqn:Eo.
  - rewrite (scan_noclose _ Hc). destruct (open_tag_eq _ Eo) as [-> _]. reflexivity.
  - now rewrite (scan_noclose _ Hc).
Qed.

(** Inside a fence the scanner reads up to the first closing line. *)
Lemma scan_body (tag : text) (rest : list text) (body : list text) :
  forallb (fun l => negb (is_close l)) body = true ->
  forall acc,
    scan repl (Some (tag, acc)) (body ++ fence3 :: rest) =
    (out <- repl (fence_match tag (rev acc ++ body)) ;;
     outs <- scan repl None rest ;;
     Ok (out :: outs)).
Proof.
  induction body as [|l body IH]; intros Hc acc.
  - cbn [app scan]. change (is_close fence3) with true. cbn iota.
    now rewrite app_nil_r.
  - cbn [forallb] in Hc. apply andb_prop in Hc as [Hl Hc]. apply negb_true_iff in Hl.
    cbn [app scan]. rewrite Hl, (IH Hc). cbn [rev]. now rewrite <- app_assoc.
Qed.

(** The scanner on plain lines, complete fences and a tail. *)
Lemma scan_items (items : list item) (tail : list text) :
  forallb item_ok items = true -> tail_ok tail = true ->
  scan repl None (doc_lines items ++ tail) =
  fmap (fun outs => outs ++ tail) (render repl items).
Proof.
  intros Hok Ht. induction items as [|it items IH].
  - cbn [doc_lines flat_map app render fmap bind]. now apply scan_tail.
  - cbn [forallb] in Hok. apply andb_prop in Hok as [Hit Hok]. specialize (IH Hok).
    unfold doc_lines. cbn [flat_map]. fold (doc_lines items). rewrite <- app_assoc.
    destruct it as [l|tag body]; cbn [item_lines app item_ok] in *.
    + apply andb_prop in Hit as [_ Ho]. apply negb_true_iff in Ho.
      unfold is_open in Ho. cbn [scan].
      destruct (open_tag l); [discriminate|]. rewrite IH.
      cbn [render item_out bind]. now destruct (render repl items).
    + apply andb_prop in Hit as [Htag Hbody].
      assert (Hbc : forallb (fun l => negb (is_close l)) body = true).
      { clear - Hbody. induction body as [|l body IHb]; [reflexivity|].
        cbn [forallb] in *. apply andb_prop in Hbody as [H1 H2].
        apply andb_prop in H1 as [_ H1]. now rewrite H1, IHb. }
      cbn [scan]. rewrite (open_tag_fence _ Htag), <- app_assoc. cbn [app].
      rewrite (scan_body tag _ body Hbc []), IH. cbn [rev app render item_out].
      destruct (repl (fence_match tag body)); [|reflexivity]. cbn [bind].
      now destruct (render repl items).
Qed.

(** [CODE_RE.sub] is the scanner, on every text. *)
Lemma sub_scan (md : text) :
  sub CODE_FLAGS CODE_RE repl md = fmap join_lines (scan repl None (split_lines md)).
Proof.
  destruct (lines_decompose (n := length (split_lines md)) (split_lines md)
                            (le_n _) (split_lines_lineb md))
    as (items & tail & E & Hok & Ht).
  rewrite <- (join_split_lines md) at 1. rewrite E.
  rewrite (sub_items repl items tail Hok Ht), (scan_items items tail Hok Ht).
  now rewrite fmap_fmap.
Qed.

End Repl.

End ScannerFacts.

(** ** Further properties of the program *)

Module Extras.
Import PyRe Md2zd Fence Lines Doc Blocks Scanner Samples.
Import FenceFacts LinesFacts SubstFacts ScannerFacts.

Section More.

Context {pygments : Pygments} {cmarkgfm : Cmark} {tidy : Tidy} {pathlib : Pathlib}.

Lemma render_resolves (items : list item) :
  forallb item_resolves items = true ->
  render md_codeblock items = Ok (map item_html items).
Proof.
  induction items as [|it items IH]; [reflexivity|]. cbn [forallb]. intros H.
  apply andb_prop in H as [Hit H]. cbn [render map]. rewrite (IH H).
  destruct it as [l|tag body]; cbn [item_out item_html item_resolves] in *.
  - reflexivity.
  - unfold md_codeblock, fence_match, fence_html, lexer_of. cbn [groups].
    unfold resolve_lexer in *.
    destruct (get_lexer_by_name (lang_of tag)) as [lx|e]; [reflexivity|].
    destruct e; try discriminate Hit. reflexivity.
Qed.

Lemma render_app (repl : Match -> result text) (xs ys : list item) :
  render repl (xs ++ ys) =
  (a <- render repl xs ;; b <- render repl ys ;; Ok (a ++ b)).
Proof.
  induction xs as [|it xs IH]; cbn [app render bind].
  - now destruct (render repl ys).
  - destruct (item_out repl it); [|reflexivity]. cbn [bind]. rewrite IH.
    destruct (render repl xs); [|reflexivity]. cbn [bind].
    now destruct (render repl ys).
Qed.

Lemma render_length (repl : Match -> result text) (items : list item) (outs : list text) :
  render repl items = Ok outs -> length outs = length items.
Proof.
  revert outs. induction items as [|it items IH]; intros outs; cbn [render].
  - now intros [= <-].
  - destruct (item_out repl it); [|discriminate]. cbn [bind].
    destruct (render repl items) as [os|]; [|discriminate]. cbn [bind].
    intros [= <-]. cbn [length]. now rewrite (IH os eq_refl).
Qed.

Lemma join_lines_app (xs ys : list text) :
  xs <> [] -> ys <> [] ->
  join_lines (xs ++ ys) = join_lines xs ++ LF :: join_lines ys.
Proof.
  intros Hx Hy. destruct xs as [|x xs]; [contradiction|].
  destruct ys as [|y ys]; [contradiction|].
  cbn [app join_lines]. rewrite rest_lines_app, <- app_assoc. reflexivity.
Qed.

(** X1.  On every text, [md_highlight] does what one pass over the lines
    does: outside a fence a line of three backticks and lowercase letters
    opens one and any other line is copied; inside, the first line of
    exactly three backticks closes it and the fence is replaced by what
    [md_codeblock] returns for its tag and body; a fence still open at the
    end of the text is copied as it was. *)
Theorem md_highlight_is_scanner (md : text) :
  md_highlight md = fmap join_lines (scan md_codeblock None (split_lines md)).
Proof. apply sub_scan. Qed.


(** X3.  An exception of the lexer lookup other than [ValueError] is not
    caught: [md_codeblock] raises it, and [md_highlight] raises it at the
    first fence whose lookup does so, whatever comes after that fence. *)
Theorem lookup_error_propagates
        (before : list item) (tag : text) (body : list text) (after : list item)
        (tail : list text) (e : exc) (n : nat) (code : text) :
  forallb item_ok (before ++ Fenced tag body :: after) = true ->
  tail_ok tail = true ->
  forallb item_resolves before = true ->
  get_lexer_by_name (lang_of tag) = Raise e ->
  e <> ValueError ->
  md_codeblock (MkMatch n [lang_of tag; Some code]) = Raise e
  /\ md_highlight (join_lines (doc_lines (before ++ Fenced tag body :: after) ++ tail)) =
       Raise e.
Proof.
  intros Hok Ht Hres Hl He.
  assert (Hc : forall k c, md_codeblock (MkMatch k [lang_of tag; Some c]) = Raise e).
  { intros k c. unfold md_codeblock, resolve_lexer. cbn [groups]. rewrite Hl.
    destruct e; try reflexivity. contradiction. }
  split; [apply Hc|].
  unfold md_highlight. rewrite (sub_items md_codeblock _ tail Hok Ht).
  rewrite render_app, (render_resolves _ Hres). cbn [bind render item_out].
  unfold fence_match. now rewrite Hc.
Qed.

(** X5.  Highlighting is local after complete fences: when a document of
    plain lines and complete fences is followed, on a new line, by any text
    at all, the result is the result for the document, a newline, and the
    result for that text, and the first exception of the two is the
    exception of the whole. *)
Theorem md_highlight_local (items : list item) (more : text) :
  forallb item_ok items = true ->
  items <> [] ->
  md_highlight (join_lines (doc_lines items) ++ LF :: more) =
  (a <- md_highlight (join_lines (doc_lines items)) ;;
   b <- md_highlight more ;;
   Ok (a ++ LF :: b)).
Proof.
  intros Hok Hne.
  destruct (lines_decompose (n := length (split_lines more)) (split_lines more)
                            (le_n _) (split_lines_lineb more))
    as (itemsB & tail & E & HokB & Ht).
  assert (Hdl : doc_lines items <> []).
  { destruct items as [|[l|tag body] items]; [contradiction| |]; discriminate. }
  assert (HB : doc_lines itemsB ++ tail <> []).
  { rewrite <- E. apply split_lines_nonempty. }
  assert (Em : more = join_lines (doc_lines itemsB ++ tail)).
  { rewrite <- E. symmetry. apply join_split_lines. }
  rewrite Em. clear Em E.
  rewrite <- join_lines_app by assumption.
  unfold md_highlight.
  replace (doc_lines items ++ doc_lines itemsB ++ tail)
    with (doc_lines (items ++ itemsB) ++ tail)
    by (unfold doc_lines; now rewrite flat_map_app, <- app_assoc).
  rewrite (sub_items md_codeblock (items ++ itemsB) tail).
  2:{ now rewrite forallb_app, Hok, HokB. }
  2:{ exact Ht. }
  rewrite (sub_items md_codeblock itemsB tail HokB Ht).
  pose proof (sub_items md_codeblock items [] Hok eq_refl) as HA.
  rewrite app_nil_r in HA. rewrite HA, render_app.
  destruct (render md_codeblock items) as [oa|] eqn:Ea; [|reflexivity].
  cbn [bind fmap]. destruct (render md_codeblock itemsB) as [ob|] eqn:Eb; [|reflexivity].
  unfold fmap. cbn [bind]. f_equal. rewrite app_nil_r, <- app_assoc.
  apply join_lines_app.
  - apply render_length in Ea. destruct oa; [|discriminate].
    destruct items; [contradiction|discriminate Ea].
  - apply render_length in Eb. intros H. apply app_eq_nil in H as [H1 H2]. subst.
    destruct itemsB; [|discriminate Eb]. now apply HB.
Qed.

(** X6.  A tag with a character outside [a-z] (an uppercase letter, a
    digit, a space, a plus sign) does not open a fence: such a line, its
    body and its closing line are copied, and so is the document, when its
    other lines are not opening lines before the closing line and not
    closing lines after it. *)
Theorem bad_tag_not_highlighted (pre : list text) (tag : text) (body post : list text) :
  forallb lower tag = false ->
  forallb lineb (pre ++ (fence3 ++ tag) :: body ++ fence3 :: post) = true ->
  forallb (fun l => negb (is_open l)) (pre ++ body) = true ->
  forallb (fun l => negb (is_close l)) post = true ->
  md_highlight (join_lines (pre ++ (fence3 ++ tag) :: body ++ fence3 :: post)) =
  Ok (join_lines (pre ++ (fence3 ++ tag) :: body ++ fence3 :: post)).
Proof.
  intros Htag Hl Ho Hc.
  rewrite forallb_app in Hl, Ho. apply andb_prop in Hl as [Hl1 Hl2].
  apply andb_prop in Ho as [Ho1 Ho2]. cbn [forallb] in Hl2.
  apply andb_prop in Hl2 as [Hlt Hl2]. rewrite forallb_app in Hl2.
  apply andb_prop in Hl2 as [Hl2 Hl3].
  assert (Hnot : is_open (fence3 ++ tag) = false).
  { unfold is_open. cbn. now rewrite Htag. }
  pose proof (@Properties.sub_plain md_codeblock (pre ++ (fence3 ++ tag) :: body)
                                    (fence3 :: post)) as H.
  rewrite <- !app_assoc in H. cbn [app] in H. apply H.
  - rewrite forallb_app. cbn [forallb]. now rewrite Hl1, Hlt, Hl2.
  - rewrite forallb_app. cbn [forallb]. now rewrite Ho1, Hnot, Ho2.
  - unfold tail_ok. cbn [tl]. now rewrite Hl3, Hc.
Qed.

(** X7.  Two fences with such tags turn the highlighting inside out: the
    closing line of the first opens a fence without tag that runs to the
    closing line of the second, so the text between the two fences and the
    second fence are highlighted as code, and the first fence is copied. *)
Theorem bad_tags_invert
        (tagA : text) (bodyA between : list text) (tagB : text) (bodyB : list text) :
  only_ValueError ->
  forallb lower tagA = false ->
  forallb lower tagB = false ->
  forallb lineb ((fence3 ++ tagA) :: bodyA ++ between ++ (fence3 ++ tagB) :: bodyB) = true ->
  forallb (fun l => negb (is_open l)) bodyA = true ->
  forallb (fun l => negb (is_close l)) (between ++ bodyB) = true ->
  md_highlight (join_lines ((fence3 ++ tagA) :: bodyA ++ fence3 :: between
                              ++ (fence3 ++ tagB) :: bodyB ++ [fence3])) =
  Ok (join_lines ((fence3 ++ tagA) :: bodyA
                    ++ [fence_html [] (between ++ (fence3 ++ tagB) :: bodyB)])).
Proof.
  intros Hlex HtA HtB Hl Ho Hc.
  cbn [forallb] in Hl. apply andb_prop in Hl as [HlA Hl].
  rewrite !forallb_app in Hl. cbn [forallb] in Hl.
  apply andb_prop in Hl as [HlbA Hl]. apply andb_prop in Hl as [Hlbt Hl].
  apply andb_prop in Hl as [HlB HlbB].
  rewrite forallb_app in Hc. apply andb_prop in Hc as [Hcbt HcB].
  assert (HnotA : is_open (fence3 ++ tagA) = false).
  { unfold is_open. cbn. now rewrite HtA. }
  assert (HncB : is_close (fence3 ++ tagB) = false).
  { destruct tagB; [discriminate HtB|reflexivity]. }
  set (mid := between ++ (fence3 ++ tagB) :: bodyB).
  set (P := (fence3 ++ tagA) :: bodyA).
  assert (EL : (fence3 ++ tagA) :: bodyA ++ fence3 :: between
                 ++ (fence3 ++ tagB) :: bodyB ++ [fence3]
               = doc_lines (map Plain P ++ [Fenced [] mid])).
  { unfold doc_lines. rewrite flat_map_app. fold (doc_lines (map Plain P)).
    rewrite Properties.doc_lines_plain. cbn [flat_map item_lines].
    rewrite !app_nil_r. subst P mid. cbn [app]. now rewrite <- !app_assoc. }
  assert (EO : (fence3 ++ tagA) :: bodyA ++ [fence_html [] mid]
               = map item_html (map Plain P ++ [Fenced [] mid])).
  { rewrite map_app, map_map. cbn [map item_html]. now rewrite map_id. }
  rewrite EL, EO. unfold md_highlight.
  pose proof (sub_items md_codeblock (map Plain P ++ [Fenced [] mid]) []) as H.
  rewrite (Properties.render_html _ Hlex) in H. unfold fmap in H. cbn [bind] in H.
  rewrite !app_nil_r in H. apply H; [|reflexivity].
  rewrite forallb_app. cbn [forallb item_ok andb].
  rewrite (Properties.plain_ok P).
  - cbn [andb]. rewrite andb_true_r. apply forallb_and; subst mid.
    + rewrite forallb_app. cbn [forallb]. now rewrite Hlbt, HlB, HlbB.
    + rewrite forallb_app. cbn [forallb]. now rewrite Hcbt, HncB, HcB.
  - subst P. cbn [forallb]. now rewrite HlA, HlbA.
  - subst P. cbn [forallb]. now rewrite HnotA, Ho.
Qed.

Lemma split_lines_snoc (s : text) : split_lines (s ++ [LF]) = split_lines s ++ [[]].
Proof.
  induction s as [|c s IH]; [reflexivity|]. cbn [app].
  rewrite !split_lines_cons, IH. destruct (Ascii.eqb c LF); [reflexivity|].
  pose proof (split_lines_nonempty s) as Hne.
  now destruct (split_lines s).
Qed.

Lemma scan_snoc (repl : Match -> result text) (ls : list text) :
  forall st,
    scan repl st (ls ++ [[]]) = fmap (fun o => o ++ [[]]) (scan repl st ls).
Proof.
  induction ls as [|l ls IH]; intros st.
  - destruct st as [[tag acc]|]; reflexivity.
  - cbn [app scan]. destruct st as [[tag acc]|].
    + destruct (is_close l); [|apply IH]. rewrite IH.
      destruct (repl (fence_match tag (rev acc))); [|reflexivity]. cbn [bind].
      now destruct (scan repl None ls).
    + destruct (open_tag l); [apply IH|]. rewrite IH.
      now destruct (scan repl None ls).
Qed.

Lemma scan_nonempty (repl : Match -> result text) (ls : list text) :
  forall st o,
    scan repl st ls = Ok o -> ls <> [] \/ st <> None -> o <> [].
Proof.
  induction ls as [|l ls IH]; intros st o H Hne.
  - destruct st as [[tag acc]|]; cbn [scan] in H.
    + injection H as <-. discriminate.
    + destruct Hne as [Hne|Hne]; contradiction.
  - cbn [scan] in H. destruct st as [[tag acc]|].
    + destruct (is_close l).
      * destruct (repl _); [|discriminate]. cbn [bind] in H.
        destruct (scan repl None ls); [|discriminate]. injection H as <-. discriminate.
      * apply (IH _ _ H). right. discriminate.
    + destruct (open_tag l).
      * apply (IH _ _ H). right. discriminate.
      * destruct (scan repl None ls); [|discriminate]. injection H as <-. discriminate.
Qed.

(** X8.  A newline added at the end of a text is added at the end of the
    result and changes nothing else. *)
Theorem final_newline_kept (md : text) :
  md_highlight (md ++ [LF]) = fmap (fun out => out ++ [LF]) (md_highlight md).
Proof.
  rewrite !md_highlight_is_scanner, split_lines_snoc, scan_snoc, !fmap_fmap.
  destruct (scan md_codeblock None (split_lines md)) as [o|] eqn:E; [|reflexivity].
  cbn [fmap bind]. f_equal.
  assert (Ho : o <> []).
  { eapply scan_nonempty; [exact E|]. left. apply split_lines_nonempty. }
  rewrite join_lines_app by (exact Ho || discriminate). reflexivity.
Qed.

End More.

(** *** The properties at concrete documents *)


Lemma lookup_error_propagates_witness :
  (forallb item_ok ([Plain (T "# Title"); Fenced (T "python") [T "x"]]
                      ++ Fenced [] [T "y"] :: [Plain (T "end")]) = true
   /\ tail_ok [] = true
   /\ forallb (@item_resolves ToyWorld.strict_pygments)
              [Plain (T "# Title"); Fenced (T "python") [T "x"]] = true
   /\ ToyWorld.strict_lookup (lang_of []) = Raise AttributeError
   /\ AttributeError <> ValueError)
  /\ md_codeblock (pygments := ToyWorld.strict_pygments)
       (MkMatch 0 [lang_of []; Some (T "y")]) = Raise AttributeError
  /\ md_highlight (pygments := ToyWorld.strict_pygments)
       (join_lines (doc_lines ([Plain (T "# Title"); Fenced (T "python") [T "x"]]
                                 ++ Fenced [] [T "y"] :: [Plain (T "end")]) ++ [])) =
       Raise AttributeError.
Proof.
  split.
  - split; [reflexivity|]. split; [reflexivity|]. split; [reflexivity|].
    split; [reflexivity|discriminate].
  - apply (@lookup_error_propagates ToyWorld.strict_pygments
             [Plain (T "# Title"); Fenced (T "python") [T "x"]] [] [T "y"]
             [Plain (T "end")] [] AttributeError 0 (T "y"));
      [reflexivity | reflexivity | reflexivity | reflexivity | discriminate].
Defined.

Lemma md_highlight_local_witness :
  (forallb item_ok [Plain (T "# Title"); Fenced (T "python") [T "x"]] = true
   /\ [Plain (T "# Title"); Fenced (T "python") [T "x"]] <> [])
  /\ Toy.md_highlight
       (join_lines (doc_lines [Plain (T "# Title"); Fenced (T "python") [T "x"]])
          ++ LF :: join_lines unterminated_doc) =
     (a <- Toy.md_highlight
             (join_lines (doc_lines [Plain (T "# Title"); Fenced (T "python") [T "x"]])) ;;
      b <- Toy.md_highlight (join_lines unterminated_doc) ;;
      Ok (a ++ LF :: b)).
Proof.
  split; [split; [reflexivity|discriminate]|].
  apply (@md_highlight_local Toy.pygments
           [Plain (T "# Title"); Fenced (T "python") [T "x"]]
           (join_lines unterminated_doc));
    [reflexivity|discriminate].
Defined.

Lemma bad_tag_not_highlighted_witness :
  (forallb lower (T "Python") = false
   /\ forallb lineb ([T "intro"] ++ (fence3 ++ T "Python") :: [T "x = 1"]
                       ++ fence3 :: [T "end"]) = true
   /\ forallb (fun l => negb (is_open l)) ([T "intro"] ++ [T "x = 1"]) = true
   /\ forallb (fun l => negb (is_close l)) [T "end"] = true)
  /\ Toy.md_highlight
       (join_lines ([T "intro"] ++ (fence3 ++ T "Python") :: [T "x = 1"]
                      ++ fence3 :: [T "end"])) =
     Ok (join_lines ([T "intro"] ++ (fence3 ++ T "Python") :: [T "x = 1"]
                       ++ fence3 :: [T "end"])).
Proof.
  split; [repeat split|].
  apply (@bad_tag_not_highlighted Toy.pygments [T "intro"] (T "Python") [T "x = 1"]
                                  [T "end"]);
    reflexivity.
Defined.

Lemma bad_tags_invert_witness :
  (@only_ValueError Toy.pygments
   /\ forallb lower (T "Python") = false
   /\ forallb lower (T "c++") = false
   /\ forallb lineb ((fence3 ++ T "Python") :: [T "a"] ++ [T "text"]
                       ++ (fence3 ++ T "c++") :: [T "b"]) = true
   /\ forallb (fun l => negb (is_open l)) [T "a"] = true
   /\ forallb (fun l => negb (is_close l)) ([T "text"] ++ [T "b"]) = true)
  /\ Toy.md_highlight
       (join_lines ((fence3 ++ T "Python") :: [T "a"] ++ fence3 :: [T "text"]
                      ++ (fence3 ++ T "c++") :: [T "b"] ++ [fence3])) =
     Ok (join_lines ((fence3 ++ T "Python") :: [T "a"]
                       ++ [toy_html (Fenced [] ([T "text"] ++ (fence3 ++ T "c++") :: [T "b"]))])).
Proof.
  split.
  - split; [exact Properties.toy_only_ValueError | repeat split].
  - apply (@bad_tags_invert Toy.pygments (T "Python") [T "a"] [T "text"] (T "c++") [T "b"]
                            Properties.toy_only_ValueError);
      reflexivity.
Defined.

End Extras.
